(** * bar: the format-string tokenizer and the token print contract

    A shallow embedding of [tokens.go].  Go strings are byte sequences, so a
    Go [string] is a Rocq [string] (a list of 8-bit [ascii]); a [rune] is an
    [int32] kept as a [Z]; the [bufio.Reader] wrapped around a
    [strings.Reader] is the string of bytes not yet consumed, threaded
    explicitly through the reading functions. *)

From Stdlib Require Import ZArith List String Ascii Bool Lia Floats.
From Stdlib Require Import DecimalString DecimalN DecimalPos.
Import ListNotations.

Open Scope string_scope.
Open Scope Z_scope.

(** ** Bytes and 32-bit runes *)

Definition byte := ascii.
Definition rune := Z.

(** The numeric value of a byte. *)
Definition byte_val (a : byte) : Z := Z.of_N (N_of_ascii a).

(** Go's conversion [byte(x)]: the low eight bits. *)
Definition byte_of (z : Z) : byte := ascii_of_N (Z.to_N (z mod 256)).

(** Go's conversion [rune(x)] / [int32(x)] with its wrap-around. *)
Definition int32 (z : Z) : Z := (z + 2 ^ 31) mod 2 ^ 32 - 2 ^ 31.

(** Go's conversion [uint32(x)]. *)
Definition uint32 (z : Z) : Z := z mod 2 ^ 32.

(** The bytes left after the first [n] of [s]. *)
Fixpoint skip (n : nat) (s : string) : string :=
  match n, s with
  | O, _ => s
  | S _, EmptyString => EmptyString
  | S k, String _ rest => skip k rest
  end.

(** [p[i]] for a byte slice, when in range. *)
Fixpoint byte_at (s : string) (i : nat) : option byte :=
  match s, i with
  | EmptyString, _ => None
  | String a _, O => Some a
  | String _ rest, S k => byte_at rest k
  end.

(** ** Package [unicode/utf8], as far as the reader and the buffer use it *)

Module utf8.

Definition RuneError : rune := 0xFFFD.
Definition RuneSelf : Z := 0x80.
Definition MaxRune : Z := 0x10FFFF.
Definition surrogateMin : Z := 0xD800.
Definition surrogateMax : Z := 0xDFFF.

Definition t2 : Z := 0xC0.
Definition t3 : Z := 0xE0.
Definition t4 : Z := 0xF0.
Definition tx : Z := 0x80.
Definition maskx : Z := 0x3F.
Definition mask2 : Z := 0x1F.
Definition mask3 : Z := 0x0F.
Definition mask4 : Z := 0x07.

Definition rune1Max : Z := 0x7F.
Definition rune2Max : Z := 0x7FF.
Definition rune3Max : Z := 0xFFFF.

Definition locb : Z := 0x80.
Definition hicb : Z := 0xBF.

(** Entries of the [first] table: [xx] invalid, [as_] ASCII, [s1]..[s7]
    the accept-range index in the high nibble and the size in the low. *)
Definition xx : Z := 0xF1.
Definition as_ : Z := 0xF0.
Definition s1 : Z := 0x02.
Definition s2 : Z := 0x13.
Definition s3 : Z := 0x03.
Definition s4 : Z := 0x23.
Definition s5 : Z := 0x34.
Definition s6 : Z := 0x04.
Definition s7 : Z := 0x44.

Definition first (p0 : Z) : Z :=
  if p0 <? 0x80 then as_
  else if p0 <? 0xC2 then xx
  else if p0 <? 0xE0 then s1
  else if p0 =? 0xE0 then s2
  else if p0 <? 0xED then s3
  else if p0 =? 0xED then s4
  else if p0 <? 0xF0 then s3
  else if p0 =? 0xF0 then s5
  else if p0 <? 0xF4 then s6
  else if p0 =? 0xF4 then s7
  else xx.

(** [acceptRanges[i]] as the pair (lo, hi). *)
Definition acceptRanges (i : Z) : Z * Z :=
  if i =? 0 then (locb, hicb)
  else if i =? 1 then (0xA0, hicb)
  else if i =? 2 then (locb, 0x9F)
  else if i =? 3 then (0x90, hicb)
  else if i =? 4 then (locb, 0x8F)
  else (0, 0).

(** [DecodeRune(p)]: the first rune of [p] and its width in bytes. *)
Definition DecodeRune (p : string) : rune * nat :=
  match p with
  | EmptyString => (RuneError, 0%nat)
  | String a0 _ =>
      let n := Z.of_nat (String.length p) in
      let p0 := byte_val a0 in
      let x := first p0 in
      if as_ <=? x then
        ((if x =? as_ then p0 else RuneError), 1%nat)
      else
        let sz := Z.land x 7 in
        let accept := acceptRanges (Z.shiftr x 4) in
        if n <? sz then (RuneError, 1%nat)
        else
          match byte_at p 1 with
          | None => (RuneError, 1%nat)
          | Some a1 =>
              let b1 := byte_val a1 in
              if (b1 <? fst accept) || (snd accept <? b1) then (RuneError, 1%nat)
              else if sz <=? 2 then
                (int32 (Z.lor (Z.shiftl (Z.land p0 mask2) 6) (Z.land b1 maskx)), 2%nat)
              else
                match byte_at p 2 with
                | None => (RuneError, 1%nat)
                | Some a2 =>
                    let b2 := byte_val a2 in
                    if (b2 <? locb) || (hicb <? b2) then (RuneError, 1%nat)
                    else if sz <=? 3 then
                      (int32 (Z.lor (Z.lor (Z.shiftl (Z.land p0 mask3) 12)
                                           (Z.shiftl (Z.land b1 maskx) 6))
                                    (Z.land b2 maskx)), 3%nat)
                    else
                      match byte_at p 3 with
                      | None => (RuneError, 1%nat)
                      | Some a3 =>
                          let b3 := byte_val a3 in
                          if (b3 <? locb) || (hicb <? b3) then (RuneError, 1%nat)
                          else
                            (int32 (Z.lor (Z.lor (Z.lor (Z.shiftl (Z.land p0 mask4) 18)
                                                        (Z.shiftl (Z.land b1 maskx) 12))
                                                 (Z.shiftl (Z.land b2 maskx) 6))
                                          (Z.land b3 maskx)), 4%nat)
                      end
                end
          end
  end.

(** The three-byte form, shared by the replacement of an invalid rune and
    the ordinary case. *)
Definition encode3 (r : rune) : string :=
  String (byte_of (Z.lor t3 (byte_val (byte_of (Z.shiftr r 12)))))
    (String (byte_of (Z.lor tx (Z.land (byte_val (byte_of (Z.shiftr r 6))) maskx)))
       (String (byte_of (Z.lor tx (Z.land (byte_val (byte_of r)) maskx))) EmptyString)).

(** The bytes of [string([]rune{r})]. *)
Definition EncodeRune (r : rune) : string :=
  let i := uint32 r in
  if i <=? rune1Max then String (byte_of r) EmptyString
  else if i <=? rune2Max then
    String (byte_of (Z.lor t2 (byte_val (byte_of (Z.shiftr r 6)))))
      (String (byte_of (Z.lor tx (Z.land (byte_val (byte_of r)) maskx))) EmptyString)
  else if (MaxRune <? i) || ((surrogateMin <=? i) && (i <=? surrogateMax)) then
    encode3 RuneError
  else if i <=? rune3Max then encode3 r
  else
    String (byte_of (Z.lor t4 (byte_val (byte_of (Z.shiftr r 18)))))
      (String (byte_of (Z.lor tx (Z.land (byte_val (byte_of (Z.shiftr r 12))) maskx)))
         (String (byte_of (Z.lor tx (Z.land (byte_val (byte_of (Z.shiftr r 6))) maskx)))
            (String (byte_of (Z.lor tx (Z.land (byte_val (byte_of r)) maskx)))
               EmptyString))).

End utf8.

(** ** The input stream *)

(** The errors a read can return.  A [strings.Reader] only ever reports
    [io.EOF]; [io_other] stands for any other error value, which [tokenize]
    turns into a panic. *)
Inductive error : Type :=
| io_EOF
| io_other (msg : string).

(** The unread part of the format string. *)
Definition stream := string.

(** [f.stream.ReadRune()]: the next rune and the stream after it. *)
Definition ReadRune (s : stream) : (rune * stream) + error :=
  match s with
  | EmptyString => inr io_EOF
  | String a rest =>
      if byte_val a <? utf8.RuneSelf then inl (byte_val a, rest)
      else let '(r, size) := utf8.DecodeRune s in inl (r, skip size s)
  end.

(** [f.stream.Peek(1)]: the next byte, not consumed. *)
Definition Peek1 (s : stream) : byte + error :=
  match s with
  | EmptyString => inr io_EOF
  | String a _ => inl a
  end.

(** ** Tokens *)

Inductive token : Type :=
| spaceToken
| barToken
| percentToken
| rateToken
| etaToken
| customVerbToken (verb : string)
| literalToken (content : string).

Definition tokens := list token.

(** [tokenFromString]: the token parsed from [s], [None] for the [false]
    result. *)
Fixpoint customVerbFromString (s : string) (customVerbs : list string) : option token :=
  match customVerbs with
  | [] => None
  | verb :: rest =>
      if String.eqb s verb then Some (customVerbToken verb)
      else customVerbFromString s rest
  end.

Definition tokenFromString (s : string) (customVerbs : list string) : option token :=
  if String.eqb s "bar" then Some barToken
  else if String.eqb s "percent" then Some percentToken
  else if String.eqb s "rate" then Some rateToken
  else if String.eqb s "eta" then Some etaToken
  else customVerbFromString s customVerbs.

(** ** The tokenizer *)

(** [readSeparator]: is the next byte a space, a colon, or missing? *)
Definition readSeparator (s : stream) : bool :=
  match Peek1 s with
  | inr _ => true
  | inl p0 => Ascii.eqb p0 " " || Ascii.eqb p0 ":"
  end.

(** A reading function returns its Go result pair and the stream it leaves;
    [None] only when the loop counter [fuel] of the model is used up. *)
Definition reading := option ((token + error) * stream).

(** [readLiteral]: [value] is the buffer, already holding the prefix rune
    when the loop starts. *)
Fixpoint readLiteral_loop (fuel : nat) (value : string) (s : stream) : reading :=
  match fuel with
  | O => None
  | S fuel' =>
      if readSeparator s then Some (inl (literalToken value), s)
      else
        match ReadRune s with
        | inr err => Some (inr err, s)
        | inl (r, s') => readLiteral_loop fuel' (value ++ utf8.EncodeRune r) s'
        end
  end.

Definition readLiteral (fuel : nat) (prefix : rune) (s : stream) : reading :=
  readLiteral_loop fuel (utf8.EncodeRune prefix) s.

(** [readAction]: [verb] is the buffer, empty when the loop starts. *)
Fixpoint readAction_loop (fuel : nat) (customVerbs : list string) (verb : string)
  (s : stream) : reading :=
  match fuel with
  | O => None
  | S fuel' =>
      match ReadRune s with
      | inr err => Some (inr err, s)
      | inl (r, s') =>
          let verb' := verb ++ utf8.EncodeRune r in
          match tokenFromString verb' customVerbs with
          | Some t => Some (inl t, s')
          | None =>
              if readSeparator s' then
                match tokenFromString verb' customVerbs with
                | Some t => Some (inl t, s')
                | None => Some (inl (literalToken (":" ++ verb')), s')
                end
              else readAction_loop fuel' customVerbs verb' s'
          end
      end
  end.

Definition readAction (fuel : nat) (customVerbs : list string) (s : stream) : reading :=
  readAction_loop fuel customVerbs "" s.

(** [nextToken]. *)
Definition nextToken (fuel : nat) (customVerbs : list string) (s : stream) : reading :=
  match ReadRune s with
  | inr err => Some (inr err, s)
  | inl (r, s') =>
      if r =? 32 then Some (inl spaceToken, s')
      else if r =? 58 then readAction fuel customVerbs s'
      else readLiteral fuel r s'
  end.

(** What a call of [tokenize] does: return a token slice or panic. *)
Inductive outcome : Type :=
| Returned (t : tokens)
| Panicked (msg : string).

Fixpoint tokenize_loop (fuel : nat) (customVerbs : list string) (t : tokens)
  (s : stream) : option outcome :=
  match fuel with
  | O => None
  | S fuel' =>
      match nextToken fuel' customVerbs s with
      | None => None
      | Some (inr io_EOF, _) => Some (Returned t)
      | Some (inr (io_other msg), _) => Some (Panicked ("tokenize: " ++ msg))
      | Some (inl tkn, s') => tokenize_loop fuel' customVerbs (t ++ [tkn])%list s'
      end
  end.

(** [tokenize]: every loop of the scanner consumes at least one byte per
    turn, so one more turn than the format has bytes is enough (see
    [tokenize_returns]). *)
Definition tokenize (f : string) (customVerbs : list string) : option outcome :=
  tokenize_loop (S (String.length f)) customVerbs [] f.


(** ** Numbers used by the print methods *)

(** Go's [int] on a 64-bit target, with its wrap-around. *)
Definition minInt : Z := - 2 ^ 63.
Definition maxInt : Z := 2 ^ 63 - 1.
Definition int64 (z : Z) : Z := (z + 2 ^ 63) mod 2 ^ 64 - 2 ^ 63.

(** [float64(n)] for an [int] [n]: the nearest binary64 value. *)
Definition float64_of_int (n : Z) : float :=
  if n =? minInt then (- 0x1p63)%float
  else if n <? 0 then (- PrimFloat.of_uint63 (Uint63.of_Z (- n)))%float
  else PrimFloat.of_uint63 (Uint63.of_Z n).

(** The integer part of a finite binary64 value, rounded toward zero. *)
Definition truncate (s : bool) (m : positive) (e : Z) : Z :=
  let a := if 0 <=? e then Z.shiftl (Zpos m) e else Z.shiftr (Zpos m) (- e) in
  if s then - a else a.

(** [int(f)] for a [float64] [f]: truncation toward zero; where the value
    does not fit (or is not a number) the language leaves the result to the
    implementation, and the amd64 result, the smallest [int], is taken. *)
Definition int_of_float64 (f : float) : Z :=
  match Prim2SF f with
  | S754_zero _ => 0
  | S754_finite s m e =>
      let v := truncate s m e in
      if (minInt <=? v) && (v <=? maxInt) then v else minInt
  | S754_infinity _ | S754_nan => minInt
  end.

(** [math.Max]. *)
Definition math_Max (x y : float) : float :=
  if PrimFloat.eqb x infinity || PrimFloat.eqb y infinity then infinity
  else if PrimFloat.is_nan x || PrimFloat.is_nan y then nan
  else if PrimFloat.eqb x 0 && PrimFloat.eqb x y then
    (if PrimFloat.get_sign x then y else x)
  else if PrimFloat.ltb y x then x
  else y.

(** What a call leaves behind: its value, or the panic that ended it. *)
Inductive result (A : Type) : Type :=
| Ok (a : A)
| Panic (msg : string).
Arguments Ok {A} a.
Arguments Panic {A} msg.

Fixpoint repeat_string (s : string) (n : nat) : string :=
  match n with
  | O => ""
  | S k => s ++ repeat_string s k
  end.

(** [strings.Repeat(s, count)].  The model keeps the panic on a negative
    count.  The other panic of the library, on a result too long for an
    [int], differs between versions of the library and needs a result of at
    least [2^63] bytes; a string of the model has no such bound and the
    repetition is returned. *)
Definition strings_Repeat (s : string) (count : Z) : result string :=
  if count <? 0 then Panic "strings: negative Repeat count"
  else Ok (repeat_string s (Z.to_nat count)).

(** The decimal digits of a natural number. *)
Definition decimal (n : Z) : string :=
  NilZero.string_of_uint (N.to_uint (Z.to_N n)).

(** [m * 2^e * 10] rounded to the nearest integer, ties to even. *)
Definition round_tenths (m : positive) (e : Z) : Z :=
  if 0 <=? e then Z.shiftl (10 * Zpos m) e
  else
    let den := Z.shiftl 1 (- e) in
    let q := (10 * Zpos m) / den in
    let r := (10 * Zpos m) mod den in
    if den <? 2 * r then q + 1
    else if (den =? 2 * r) && Z.odd q then q + 1
    else q.

(** [fmt.Sprintf("%.1f", f)]: the exact value of [f] rounded to one decimal
    place, ties to even. *)
Definition sprintf_1f (f : float) : string :=
  match Prim2SF f with
  | S754_nan => "NaN"
  | S754_infinity false => "+Inf"
  | S754_infinity true => "-Inf"
  | S754_zero s => (if s then "-" else "") ++ "0.0"
  | S754_finite s m e =>
      let n := round_tenths m e in
      (if s then "-" else "") ++ decimal (n / 10) ++ "." ++ decimal (n mod 10)
  end.

(** ** The progress state read by the print methods *)

(** Modelled from the spec: the element type of [Bar.context] is declared
    outside [tokens.go]; an entry is a verb name and a value, and [value]
    holds the text [def.value.String()] returns. *)
Record ctxDef : Type := {
  verb : string;
  value : string
}.

(** Modelled from the spec: the [Bar] struct and its method [prog] are
    declared outside [tokens.go].  The record has the fields the print
    methods read, under their names in the source; [prog] holds the result of
    [b.prog()], the fraction complete, and [eta] the text [b.eta.String()]
    returns. *)
Record Bar : Type := {
  progress : Z;
  total : Z;
  width : Z;
  start : string;
  complete : string;
  head : string;
  incomplete : string;
  end_ : string;
  rate : float;
  eta : string;
  context : list ctxDef;
  prog : float
}.

(** ** The print methods *)

(** A print leaves a string or a panic, and the lines it wrote to
    [os.Stderr]. *)
Definition printed : Type := result string * list string.

Definition print_barToken (b : Bar) : result string :=
  let p := int_of_float64 (prog b * float64_of_int (width b))%float in
  match strings_Repeat (complete b)
          (int_of_float64 (math_Max 0 (float64_of_int (int64 (p - 1))))) with
  | Panic msg => Panic msg
  | Ok done =>
      match strings_Repeat (incomplete b) (int64 (width b - p)) with
      | Panic msg => Panic msg
      | Ok todo => Ok (start b ++ done ++ head b ++ todo ++ end_ b)
      end
  end.

Definition print_percentToken (b : Bar) : string :=
  sprintf_1f (prog b * 100)%float ++ "%".

Definition print_rateToken (b : Bar) : string :=
  sprintf_1f (rate b).

Definition print_etaToken (b : Bar) : string :=
  eta b.

(** The loop of [customVerbToken.print] over [b.context]. *)
Fixpoint lookup_context (v : string) (ctx : list ctxDef) : option string :=
  match ctx with
  | [] => None
  | def :: rest =>
      if String.eqb (verb def) v then Some (value def)
      else lookup_context v rest
  end.

Definition unresolved_diagnostic : string :=
  "tokenize: only use `:` for custom verbs".

Definition print_customVerbToken (v : string) (b : Bar) : printed :=
  match lookup_context v (context b) with
  | Some text => (Ok text, [])
  | None => (Ok v, [unresolved_diagnostic])
  end.

(** [t.print(b)] for each kind of token. *)
Definition print (t : token) (b : Bar) : printed :=
  match t with
  | spaceToken => (Ok " ", [])
  | barToken => (print_barToken b, [])
  | percentToken => (Ok (print_percentToken b), [])
  | rateToken => (Ok (print_rateToken b), [])
  | etaToken => (Ok (print_etaToken b), [])
  | customVerbToken v => print_customVerbToken v b
  | literalToken content => (Ok content, [])
  end.

(** Modelled from the spec: the loop that renders a compiled format is
    outside [tokens.go]; the output of a render is the concatenation of the
    results of [print] over the tokens, in order.  A panic ends the loop; what
    was written to [os.Stderr] before it stays written. *)
Fixpoint render (ts : tokens) (b : Bar) : printed :=
  match ts with
  | [] => (Ok "", [])
  | t :: rest =>
      match print t b with
      | (Panic msg, log) => (Panic msg, log)
      | (Ok text, log) =>
          match render rest b with
          | (Panic msg, log') => (Panic msg, (log ++ log')%list)
          | (Ok text', log') => (Ok (text ++ text'), (log ++ log')%list)
          end
      end
  end.


(** ** Predicates of the statements *)

(** The four standard verb names. *)
Definition standard (s : string) : bool :=
  String.eqb s "bar" || String.eqb s "percent" || String.eqb s "rate"
  || String.eqb s "eta".

(** The property every emitted token has: a custom verb is registered and
    not standard, and a literal that starts with the colon continues with a
    string that is not empty and is no verb. *)
Definition scanned (cv : list string) (t : token) : Prop :=
  match t with
  | customVerbToken v => In v cv /\ standard v = false
  | literalToken c =>
      forall v, c = ":" ++ v -> v <> "" /\ tokenFromString v cv = None
  | _ => True
  end.

(** The two ways a read can end. *)
Definition ends_well (customVerbs : list string) (s : stream) (out : (token + error) * stream) : Prop :=
  match out with
  | (inr err, _) => err = io_EOF
  | (inl t, s') => (String.length s' < String.length s)%nat /\ scanned customVerbs t
  end.

(** ASCII bytes other than the two separator characters. *)
Fixpoint plain (v : string) : bool :=
  match v with
  | EmptyString => true
  | String a v' =>
      (byte_val a <? 128) && negb (Ascii.eqb a " " || Ascii.eqb a ":") && plain v'
  end.

(** No candidate that action mode builds from [v], starting from the buffer
    [verb0], is a standard or a custom verb. *)
Fixpoint never_matches (cv : list string) (verb0 v : string) : bool :=
  match v with
  | EmptyString => true
  | String a v' =>
      match tokenFromString (verb0 ++ String a "") cv with
      | Some _ => false
      | None => never_matches cv (verb0 ++ String a "") v'
      end
  end.

(** [[]rune(s)]: the runes that reading [s] to its end yields, one per
    [ReadRune]. *)
Fixpoint runes_loop (fuel : nat) (s : string) : list rune :=
  match fuel with
  | O => []
  | S fuel' =>
      match ReadRune s with
      | inr _ => []
      | inl (r, s') => r :: runes_loop fuel' s'
      end
  end.

Definition runes (s : string) : list rune := runes_loop (String.length s) s.

(** [string(rs)]: what the buffer of action mode holds once the runes [rs]
    were written to it. *)
Fixpoint string_of_runes (rs : list rune) : string :=
  match rs with
  | [] => ""
  | r :: rs' => utf8.EncodeRune r ++ string_of_runes rs'
  end.

(** No byte is a space or a colon. *)
Fixpoint no_separator (v : string) : bool :=
  match v with
  | EmptyString => true
  | String a v' => negb (Ascii.eqb a " " || Ascii.eqb a ":") && no_separator v'
  end.


(** A state for the examples: ASCII glyphs, a width, a fraction complete
    and a context. *)
Definition sample (w : Z) (p : float) (ctx : list ctxDef) : Bar :=
  {| progress := 0; total := 100; width := w;
     start := "["; complete := "="; head := ">"; incomplete := "-"; end_ := "]";
     rate := 0%float; eta := "0s"; context := ctx; prog := p |}.

(** The [float64] constant [0.2567]: the binary64 value nearest to the
    decimal (see [fraction_0_2567_nearest]). *)
Definition fraction_0_2567 : float := 0x1.06dc5d6388659p-2.

(** The number of completed-fill glyphs comes out of a round trip through
    [float64]; [count_ok p] checks that the round trip is exact at [p], and
    [counts_ok n p] at the [n] integers from [p] on. *)
Definition count_ok (p : Z) : bool :=
  int_of_float64 (math_Max 0 (float64_of_int (int64 (p - 1)))) =? Z.max 0 (p - 1).

Fixpoint counts_ok (n : nat) (p : Z) : bool :=
  match n with
  | O => true
  | S k => count_ok p && counts_ok k (p + 1)
  end.

(** ** The debug methods *)

(** [fmt.Sprintf("%d", n)] for an [int]. *)
Definition sprintf_d (n : Z) : string :=
  if n <? 0 then "-" ++ decimal (- n) else decimal n.

(** The double quote, as a one-byte string. *)
Definition quote : string := String "034" "".

(** [t.debug(b)] for each kind of token.  The methods that show a printed
    value call [print], so what [print] writes to [os.Stderr] is written
    here too. *)
Definition debug (t : token) (b : Bar) : printed :=
  match t with
  | spaceToken => (Ok " ", [])
  | barToken =>
      (Ok ("<barToken p={" ++ sprintf_d (progress b) ++ "} t={"
           ++ sprintf_d (total b) ++ "}>"), [])
  | percentToken =>
      (Ok ("<percentToken " ++ quote ++ print_percentToken b ++ quote ++ ">"), [])
  | rateToken =>
      (Ok ("<rateToken " ++ quote ++ print_rateToken b ++ quote ++ ">"), [])
  | etaToken =>
      (Ok ("<etaToken " ++ quote ++ print_etaToken b ++ quote ++ ">"), [])
  | customVerbToken v =>
      match print_customVerbToken v b with
      | (Ok text, log) =>
          (Ok ("<customVerbToken verb=" ++ quote ++ v ++ quote ++ " value="
               ++ quote ++ text ++ quote ++ ">"), log)
      | (Panic msg, log) => (Panic msg, log)
      end
  | literalToken content =>
      (Ok ("<literalToken " ++ quote ++ content ++ quote ++ ">"), [])
  end.

(** ** Formats and the text of tokens *)

(** The text of a format that a token stands for: the trigger and the verb
    name for a verb, the content for a literal. *)
Definition source_text (t : token) : string :=
  match t with
  | spaceToken => " "
  | barToken => ":bar"
  | percentToken => ":percent"
  | rateToken => ":rate"
  | etaToken => ":eta"
  | customVerbToken v => ":" ++ v
  | literalToken content => content
  end.

Fixpoint source_texts (ts : tokens) : string :=
  match ts with
  | [] => ""
  | t :: rest => source_text t ++ source_texts rest
  end.

(** A format as the scanner reads it: every rune written back as bytes.
    Bytes that are no valid UTF-8 come back as the replacement rune. *)
Definition transcode (s : string) : string := string_of_runes (runes s).

(** Every byte is ASCII. *)
Fixpoint ascii_only (v : string) : bool :=
  match v with
  | EmptyString => true
  | String a v' => (byte_val a <? 128) && ascii_only v'
  end.

(** No byte is the trigger. *)
Fixpoint no_trigger (v : string) : bool :=
  match v with
  | EmptyString => true
  | String a v' => negb (Ascii.eqb a ":") && no_trigger v'
  end.

(** An ASCII candidate of action mode: any first byte, then bytes that are
    no separator. *)
Definition candidate (v : string) : bool :=
  match v with
  | EmptyString => false
  | String a v' => (byte_val a <? 128) && plain v'
  end.

(** The tokens that hold text of the format: spaces and literals. *)
Definition is_text (t : token) : bool :=
  match t with
  | spaceToken | literalToken _ => true
  | _ => false
  end.

(** What holds of every token the scanner emits, beyond its kind: a custom
    verb is a registered name, not empty and not standard; a literal is not
    empty. *)
Definition wellformed (cv : list string) (t : token) : Prop :=
  match t with
  | customVerbToken v => v <> "" /\ In v cv /\ standard v = false
  | literalToken c => c <> ""
  | _ => True
  end.

(** A Unicode scalar value: a code point that is no surrogate. *)
Definition scalar (r : rune) : bool :=
  (0 <=? r) && (r <=? utf8.MaxRune)
  && negb ((utf8.surrogateMin <=? r) && (r <=? utf8.surrogateMax)).

(** A rune of running text: a scalar value other than the space and the
    trigger. *)
Definition text_rune (r : rune) : bool :=
  scalar r && negb (r =? 32) && negb (r =? 58).

(** Past its first byte the string holds no separator. *)
Definition inner_plain (v : string) : bool :=
  match v with
  | EmptyString => true
  | String _ w => no_separator w
  end.

(** Where separators can stand in an emitted token: nowhere past the first
    byte of a custom verb name; nowhere in a literal of literal mode; and in
    a demoted action only right behind the trigger. *)
Definition shaped (t : token) : Prop :=
  match t with
  | customVerbToken v => inner_plain v = true
  | literalToken c =>
      no_separator c = true \/ exists w, c = ":" ++ w /\ inner_plain w = true
  | _ => True
  end.

(** The natural number a string of decimal digits writes, if it is one. *)
Definition numeral (s : string) : option Z :=
  option_map (fun d => Z.of_N (N.of_uint d)) (NilZero.uint_of_string s).

(** [n] tenths is the value [m * 2^e] rounded to one decimal place: the
    nearest number of tenths, the even one of the two when the value lies
    halfway.  With [d = 2^max(0,-e)] the value times ten is
    [10 * m * 2^max(0,e) / d]. *)
Definition nearest_tenths (m : positive) (e n : Z) : Prop :=
  let d := 2 ^ Z.max 0 (- e) in
  let x := 10 * Zpos m * 2 ^ Z.max 0 e in
  2 * Z.abs (n * d - x) <= d
  /\ (2 * Z.abs (n * d - x) = d -> Z.even n = true).

(** * Properties *)

(** ** Strings *)

Lemma append_empty_r (s : string) : s ++ "" = s.
Proof.
  induction s as [|a s IH]; simpl; [reflexivity|now rewrite IH].
Qed.

Lemma append_assoc (s1 s2 s3 : string) : (s1 ++ s2) ++ s3 = s1 ++ (s2 ++ s3).
Proof.
  induction s1 as [|a s1 IH]; simpl; [reflexivity|now rewrite IH].
Qed.

Lemma append_nonempty (s1 s2 : string) : s2 <> "" -> s1 ++ s2 <> "".
Proof.
  intros Hne. destruct s1; simpl; [assumption|discriminate].
Qed.

(** ** Bytes *)

Lemma byte_val_range (a : byte) : 0 <= byte_val a < 256.
Proof.
  unfold byte_val. pose proof (N_ascii_bounded a). lia.
Qed.

Lemma byte_of_val (a : byte) : byte_of (byte_val a) = a.
Proof.
  unfold byte_of, byte_val.
  pose proof (N_ascii_bounded a).
  rewrite Z.mod_small by lia.
  rewrite N2Z.id. apply ascii_N_embedding.
Qed.

Lemma byte_val_of (z : Z) : byte_val (byte_of z) = z mod 256.
Proof.
  unfold byte_of, byte_val.
  pose proof (Z.mod_pos_bound z 256 ltac:(lia)).
  rewrite N_ascii_embedding by lia.
  rewrite Z2N.id by lia. reflexivity.
Qed.

Lemma byte_of_colon (z : Z) : byte_of z = ":"%char -> z mod 256 = 58.
Proof.
  intros H. rewrite <- byte_val_of, H. reflexivity.
Qed.

(** A byte built by or-ing a lead marker with bit 7 set is not a colon. *)
Lemma lead_byte_not_colon (t x : Z) :
  Z.testbit t 7 = true -> byte_of (Z.lor t x) <> ":"%char.
Proof.
  intros Ht H. apply byte_of_colon in H.
  assert (Hb : Z.testbit (Z.lor t x mod 2 ^ 8) 7 = true).
  { rewrite Z.mod_pow2_bits_low by lia. rewrite Z.lor_spec, Ht. reflexivity. }
  change (2 ^ 8) with 256 in Hb. rewrite H in Hb. discriminate.
Qed.

Lemma int32_range (z : Z) : - 2 ^ 31 <= int32 z < 2 ^ 31.
Proof.
  unfold int32. pose proof (Z.mod_pos_bound (z + 2 ^ 31) (2 ^ 32) ltac:(lia)). lia.
Qed.

(** ** UTF-8 *)

(** The first byte of the encoding of a rune other than the colon is not
    the colon. *)
Lemma EncodeRune_first (r : rune) :
  - 2 ^ 31 <= r < 2 ^ 31 -> r <> 58 ->
  exists a rest, utf8.EncodeRune r = String a rest /\ a <> ":"%char.
Proof.
  intros Hr Hne. unfold utf8.EncodeRune, utf8.encode3.
  destruct (uint32 r <=? utf8.rune1Max) eqn:H1.
  - eexists _, _. split; [reflexivity|].
    intros H. apply byte_of_colon in H.
    apply Z.leb_le in H1. unfold uint32, utf8.rune1Max in H1.
    assert (0 <= r) by (destruct (Z_lt_le_dec r 0) as [Hn|]; [|assumption];
      rewrite <- (Z.mod_add r 1 (2 ^ 32)) in H1 by lia;
      rewrite Z.mod_small in H1 by lia; lia).
    rewrite Z.mod_small in H1 by lia.
    rewrite Z.mod_small in H by lia. contradiction.
  - destruct (uint32 r <=? utf8.rune2Max);
      [|destruct ((utf8.MaxRune <? uint32 r)
                  || ((utf8.surrogateMin <=? uint32 r) && (uint32 r <=? utf8.surrogateMax)));
        [|destruct (uint32 r <=? utf8.rune3Max)]];
      (eexists _, _; split; [reflexivity|]); apply lead_byte_not_colon; reflexivity.
Qed.

Lemma EncodeRune_nonempty (r : rune) : utf8.EncodeRune r <> "".
Proof.
  unfold utf8.EncodeRune, utf8.encode3.
  repeat match goal with
         | |- context [if ?c then _ else _] => destruct c
         end; discriminate.
Qed.

Lemma skip_length (n : nat) (s : string) :
  String.length (skip n s) = (String.length s - n)%nat.
Proof.
  revert s. induction n as [|n IH]; intros s; simpl.
  - lia.
  - destruct s; simpl; [reflexivity|apply IH].
Qed.

(** A decoded rune has a width of at least one byte and fits an [int32]. *)
Lemma DecodeRune_spec (a : byte) (rest : string) (r : rune) (n : nat) :
  utf8.DecodeRune (String a rest) = (r, n) ->
  (1 <= n)%nat /\ - 2 ^ 31 <= r < 2 ^ 31.
Proof.
  pose proof (byte_val_range a) as Ha.
  unfold utf8.DecodeRune.
  repeat match goal with
         | |- context [if ?c then _ else _] => destruct c
         | |- context [match byte_at ?p ?i with _ => _ end] => destruct (byte_at p i)
         end;
    intros H; injection H as Hr Hn; subst r n;
    (split; [lia|]);
    try apply int32_range; unfold utf8.RuneError; lia.
Qed.

(** ** The stream *)

Lemma ReadRune_spec (s s' : stream) (r : rune) :
  ReadRune s = inl (r, s') ->
  (String.length s' < String.length s)%nat /\ - 2 ^ 31 <= r < 2 ^ 31.
Proof.
  destruct s as [|a rest]; [discriminate|].
  pose proof (byte_val_range a) as Ha.
  unfold ReadRune.
  destruct (byte_val a <? utf8.RuneSelf).
  - intros H. injection H as Hr Hs. subst r s'.
    cbn [String.length]. lia.
  - destruct (utf8.DecodeRune (String a rest)) as [r0 n] eqn:Hd.
    intros H. injection H as Hr Hs. subst r s'.
    apply DecodeRune_spec in Hd as [Hn Hr0].
    split; [|assumption].
    rewrite skip_length. cbn [String.length]. lia.
Qed.

Lemma ReadRune_error (s : stream) (err : error) :
  ReadRune s = inr err -> s = "" /\ err = io_EOF.
Proof.
  destruct s as [|a rest]; unfold ReadRune.
  - intros H. injection H as <-. auto.
  - destruct (byte_val a <? utf8.RuneSelf); [discriminate|].
    destruct (utf8.DecodeRune (String a rest)). discriminate.
Qed.

(** ** Verb recognition *)

Lemma customVerbFromString_Some (s : string) (cv : list string) (t : token) :
  customVerbFromString s cv = Some t -> t = customVerbToken s /\ In s cv.
Proof.
  induction cv as [|verb0 rest IH]; simpl; [discriminate|].
  destruct (String.eqb_spec s verb0) as [->|Hne].
  - intros H. injection H as <-. auto.
  - intros H. destruct (IH H). auto.
Qed.

Lemma customVerbFromString_None (s : string) (cv : list string) :
  ~ In s cv -> customVerbFromString s cv = None.
Proof.
  induction cv as [|verb0 rest IH]; simpl; [reflexivity|].
  intros Hn. destruct (String.eqb_spec s verb0) as [->|Hne].
  - exfalso. apply Hn. now left.
  - apply IH. intros Hin. apply Hn. now right.
Qed.

Lemma customVerbFromString_In (s : string) (cv : list string) :
  In s cv -> customVerbFromString s cv = Some (customVerbToken s).
Proof.
  induction cv as [|verb0 rest IH]; simpl; [contradiction|].
  intros Hin. destruct (String.eqb_spec s verb0) as [->|Hne]; [reflexivity|].
  destruct Hin as [->|Hin]; [contradiction|auto].
Qed.

(** A custom verb token carries the string that was looked up, taken from
    the registered list, and that string is no standard verb name. *)
Lemma tokenFromString_custom (s v : string) (cv : list string) :
  tokenFromString s cv = Some (customVerbToken v) ->
  v = s /\ In v cv /\ standard v = false.
Proof.
  unfold tokenFromString, standard.
  destruct (String.eqb s "bar") eqn:E1; [discriminate|].
  destruct (String.eqb s "percent") eqn:E2; [discriminate|].
  destruct (String.eqb s "rate") eqn:E3; [discriminate|].
  destruct (String.eqb s "eta") eqn:E4; [discriminate|].
  intros H. apply customVerbFromString_Some in H as [H Hin].
  injection H as ->. rewrite E1, E2, E3, E4. auto.
Qed.

Lemma tokenFromString_not_literal (s c : string) (cv : list string) :
  tokenFromString s cv <> Some (literalToken c).
Proof.
  unfold tokenFromString.
  repeat match goal with
         | |- context [if ?b then _ else _] => destruct b; [discriminate|]
         end.
  intros H. apply customVerbFromString_Some in H as [H _]. discriminate.
Qed.

Lemma tokenFromString_scanned (s : string) (cv : list string) (t : token) :
  tokenFromString s cv = Some t -> scanned cv t.
Proof.
  destruct t; simpl; auto.
  - intros H. apply tokenFromString_custom in H. tauto.
  - intros H. exfalso. exact (tokenFromString_not_literal _ _ _ H).
Qed.

Lemma readSeparator_false (s : stream) :
  readSeparator s = false -> exists r s', ReadRune s = inl (r, s').
Proof.
  destruct s as [|a rest]; [discriminate|]. intros _.
  destruct (ReadRune (String a rest)) as [[r s']|err] eqn:E.
  - eauto.
  - apply ReadRune_error in E as [E _]. discriminate.
Qed.

Section Scanner.

Variable customVerbs : list string.

(** With more fuel than bytes, [readLiteral] returns a literal that
    extends its buffer. *)
Lemma readLiteral_loop_spec (fuel : nat) :
  forall (value : string) (s : stream),
    (String.length s < fuel)%nat ->
    exists more s',
      readLiteral_loop fuel value s = Some (inl (literalToken (value ++ more)), s')
      /\ (String.length s' <= String.length s)%nat.
Proof.
  induction fuel as [|fuel IH]; intros value s Hfuel; [lia|].
  cbn [readLiteral_loop].
  destruct (readSeparator s) eqn:Hsep.
  - exists "", s. rewrite append_empty_r. auto.
  - destruct (readSeparator_false s Hsep) as (r & s' & Hread).
    rewrite Hread.
    apply ReadRune_spec in Hread as [Hlen _].
    destruct (IH (value ++ utf8.EncodeRune r) s' ltac:(lia)) as (more & s'' & Heq & Hle).
    exists (utf8.EncodeRune r ++ more), s''.
    rewrite Heq, append_assoc. split; [reflexivity|lia].
Qed.

Lemma readAction_loop_spec (fuel : nat) :
  forall (verb0 : string) (s : stream),
    (String.length s < fuel)%nat ->
    exists out, readAction_loop fuel customVerbs verb0 s = Some out /\ ends_well customVerbs s out.
Proof.
  induction fuel as [|fuel IH]; intros verb0 s Hfuel; [lia|].
  cbn [readAction_loop].
  destruct (ReadRune s) as [[r s']|err] eqn:Hread.
  - apply ReadRune_spec in Hread as [Hlen _].
    destruct (tokenFromString (verb0 ++ utf8.EncodeRune r) customVerbs) as [t|] eqn:Htok.
    + eexists. split; [reflexivity|]. split; [assumption|].
      exact (tokenFromString_scanned _ _ _ Htok).
    + destruct (readSeparator s').
      * eexists. split; [reflexivity|]. split; [assumption|].
        intros v Hv. injection Hv as <-.
        split; [apply append_nonempty, EncodeRune_nonempty|assumption].
      * destruct (IH (verb0 ++ utf8.EncodeRune r) s' ltac:(lia)) as (out & Heq & Hout).
        exists out. split; [assumption|].
        destruct out as [[t|err] s'']; simpl in *; [|assumption].
        split; [lia|tauto].
  - apply ReadRune_error in Hread as [_ ->].
    eexists. split; reflexivity.
Qed.

Lemma nextToken_spec (fuel : nat) (s : stream) :
  (String.length s <= fuel)%nat ->
  exists out, nextToken fuel customVerbs s = Some out /\ ends_well customVerbs s out.
Proof.
  intros Hfuel. unfold nextToken.
  destruct (ReadRune s) as [[r s']|err] eqn:Hread.
  - apply ReadRune_spec in Hread as [Hlen Hr].
    destruct (r =? 32).
    + eexists. split; [reflexivity|]. simpl. auto.
    + destruct (r =? 58) eqn:Hcolon.
      * destruct (readAction_loop_spec fuel "" s' ltac:(lia)) as (out & Heq & Hout).
        exists out. split; [assumption|].
        destruct out as [[t|err] s'']; simpl in *; [|assumption].
        split; [lia|tauto].
      * apply Z.eqb_neq in Hcolon.
        destruct (EncodeRune_first r Hr Hcolon) as (a & rest & Henc & Ha).
        destruct (readLiteral_loop_spec fuel (utf8.EncodeRune r) s' ltac:(lia))
          as (more & s'' & Heq & Hle).
        eexists. split; [exact Heq|]. split; [lia|].
        intros v Hv. rewrite Henc in Hv. injection Hv as Hv _. contradiction.
  - apply ReadRune_error in Hread as [_ ->].
    eexists. split; reflexivity.
Qed.

(** With more fuel than bytes, the loop of [tokenize] returns, and what it
    appended was emitted by the scanner. *)
Lemma tokenize_loop_spec (fuel : nat) :
  forall (t : tokens) (s : stream),
    (String.length s < fuel)%nat ->
    exists ts,
      tokenize_loop fuel customVerbs t s = Some (Returned (t ++ ts)%list)
      /\ Forall (scanned customVerbs) ts.
Proof.
  induction fuel as [|fuel IH]; intros t s Hfuel; [lia|].
  cbn [tokenize_loop].
  destruct (nextToken_spec fuel s ltac:(lia)) as ([[tkn|err] s'] & Heq & Hout);
    rewrite Heq; simpl in Hout.
  - destruct Hout as [Hlen Hscan].
    destruct (IH (t ++ [tkn])%list s' ltac:(lia)) as (ts & Hts & Hall).
    exists (tkn :: ts). rewrite Hts, <- app_assoc. split; [reflexivity|].
    constructor; assumption.
  - subst err. exists []. rewrite app_nil_r. split; [reflexivity|constructor].
Qed.

End Scanner.

(** [tokenize] returns a token slice for every format and every list of
    custom verbs: the fuel of the model is never used up and the panic is
    never reached. *)
Lemma tokenize_returns (f : string) (cv : list string) :
  exists ts, tokenize f cv = Some (Returned ts) /\ Forall (scanned cv) ts.
Proof.
  unfold tokenize.
  destruct (tokenize_loop_spec cv (S (String.length f)) [] f ltac:(lia))
    as (ts & Heq & Hall).
  exists ts. split; assumption.
Qed.

Lemma tokenFromString_unregistered (s : string) (cv : list string) :
  standard s = false -> ~ In s cv -> tokenFromString s cv = None.
Proof.
  unfold standard, tokenFromString. intros Hstd Hin.
  destruct (String.eqb s "bar"); [discriminate|].
  destruct (String.eqb s "percent"); [discriminate|].
  destruct (String.eqb s "rate"); [discriminate|].
  destruct (String.eqb s "eta"); [discriminate|].
  now apply customVerbFromString_None.
Qed.

(** ** Action mode on ASCII input *)

Lemma ReadRune_ascii (a : byte) (rest : stream) :
  byte_val a < 128 -> ReadRune (String a rest) = inl (byte_val a, rest).
Proof.
  intros Ha. unfold ReadRune, utf8.RuneSelf.
  destruct (Z.ltb_spec (byte_val a) 128); [reflexivity|lia].
Qed.

Lemma EncodeRune_ascii (a : byte) :
  byte_val a < 128 -> utf8.EncodeRune (byte_val a) = String a "".
Proof.
  intros Ha. pose proof (byte_val_range a) as Hr.
  unfold utf8.EncodeRune, uint32, utf8.rune1Max.
  rewrite Z.mod_small by lia.
  destruct (Z.leb_spec (byte_val a) 127); [|lia].
  now rewrite byte_of_val.
Qed.

(** One turn of the loop of [readAction] on an ASCII byte. *)
Lemma readAction_loop_step (fuel : nat) (cv : list string) (verb0 : string)
  (a : byte) (rest : stream) :
  byte_val a < 128 ->
  readAction_loop (S fuel) cv verb0 (String a rest) =
  match tokenFromString (verb0 ++ String a "") cv with
  | Some t => Some (inl t, rest)
  | None =>
      if readSeparator rest
      then Some (inl (literalToken (":" ++ verb0 ++ String a "")), rest)
      else readAction_loop fuel cv (verb0 ++ String a "") rest
  end.
Proof.
  intros Ha. cbn [readAction_loop].
  rewrite (ReadRune_ascii a rest Ha), (EncodeRune_ascii a Ha).
  destruct (tokenFromString (verb0 ++ String a "") cv); reflexivity.
Qed.

(** * The claims *)

Example tokenize_a_b :
  tokenize "a b" [] = Some (Returned [literalToken "a"; spaceToken; literalToken "b"]).
Proof.
  vm_compute. reflexivity.
Qed.

(** C1 (the code departs from the claim).  The format [":"] tokenizes to
    the empty sequence, and ["a:"] to the literal ["a"] alone: a trigger with
    nothing after it makes [readAction] return the end-of-file error, which
    ends [tokenize] without a token for the trigger.  No format at all
    tokenizes to a sequence that holds the literal [":"]. *)
Theorem lone_trigger_is_dropped :
  (forall cv : list string,
      tokenize ":" cv = Some (Returned [])
      /\ tokenize "a:" cv = Some (Returned [literalToken "a"]))
  /\ (forall (f : string) (cv : list string),
         exists ts,
           tokenize f cv = Some (Returned ts) /\ ~ In (literalToken ":") ts).
Proof.
  split.
  - intros cv. split; reflexivity.
  - intros f cv. destruct (tokenize_returns f cv) as (ts & Heq & Hall).
    exists ts. split; [assumption|].
    intros Hin. rewrite Forall_forall in Hall.
    destruct (Hall _ Hin "" eq_refl) as [Hne _]. now apply Hne.
Qed.

(** C2 (counterexample to the claim as stated).  With ["b"] registered as a
    custom verb, [":bar"] does not tokenize to the bar token: the candidate
    ["b"] matches first. *)
Lemma bar_shadowed_by_prefix :
  tokenize ":bar" ["b"] = Some (Returned [customVerbToken "b"; literalToken "ar"]).
Proof.
  reflexivity.
Qed.

(** C2 (amended).  For every list of custom verbs that registers neither
    ["b"] nor ["ba"], whether or not it registers ["bar"], the format
    [":bar"] tokenizes to the bar token alone; and for every list, a custom
    verb token never carries a standard verb name. *)
Theorem standard_bar_wins (cv : list string) :
  ~ In "b" cv -> ~ In "ba" cv ->
  tokenize ":bar" cv = Some (Returned [barToken])
  /\ (forall s v, tokenFromString s cv = Some (customVerbToken v) -> standard v = false).
Proof.
  intros Hb Hba. split.
  - unfold tokenize. cbn [String.length tokenize_loop].
    unfold nextToken. rewrite ReadRune_ascii by (vm_compute; reflexivity).
    change (byte_val ":"%char =? 32) with false.
    change (byte_val ":"%char =? 58) with true.
    cbv iota. unfold readAction.
    rewrite readAction_loop_step by (vm_compute; reflexivity).
    cbn [append].
    rewrite (tokenFromString_unregistered "b" cv eq_refl Hb).
    change (readSeparator "ar") with false. cbv iota.
    rewrite readAction_loop_step by (vm_compute; reflexivity).
    cbn [append].
    rewrite (tokenFromString_unregistered "ba" cv eq_refl Hba).
    change (readSeparator "r") with false. cbv iota.
    rewrite readAction_loop_step by (vm_compute; reflexivity).
    reflexivity.
  - intros s v H. apply tokenFromString_custom in H. tauto.
Qed.

Lemma standard_bar_wins_witness :
  tokenize ":bar" ["bar"; "foo"] = Some (Returned [barToken])
  /\ (forall s v, tokenFromString s ["bar"; "foo"] = Some (customVerbToken v) ->
                  standard v = false).
Proof.
  apply (standard_bar_wins ["bar"; "foo"]); simpl; intuition discriminate.
Defined.


(** ** Candidates that never match *)

Lemma readAction_loop_demotes (cv : list string) (rest : stream) :
  readSeparator rest = true ->
  forall (v verb0 : string) (fuel : nat),
    v <> "" -> plain v = true -> never_matches cv verb0 v = true ->
    (String.length v <= fuel)%nat ->
    readAction_loop fuel cv verb0 (v ++ rest)
    = Some (inl (literalToken (":" ++ verb0 ++ v)), rest).
Proof.
  intros Hrest v. induction v as [|a v IH]; intros verb0 fuel Hne Hplain Hnever Hfuel.
  - contradiction.
  - destruct fuel as [|fuel]; [simpl in Hfuel; lia|].
    cbn [plain] in Hplain. cbn [never_matches] in Hnever.
    apply andb_prop in Hplain as [Hplain Hv]. apply andb_prop in Hplain as [Ha Hsep].
    apply Z.ltb_lt in Ha.
    cbn [append]. rewrite readAction_loop_step by assumption.
    destruct (tokenFromString (verb0 ++ String a "") cv); [discriminate|].
    destruct v as [|a' v].
    + cbn [append]. rewrite Hrest. reflexivity.
    + assert (Hnext : readSeparator (String a' v ++ rest) = false).
      { cbn [plain] in Hv. apply andb_prop in Hv as [Hv _].
        apply andb_prop in Hv as [_ Hv]. apply negb_true_iff in Hv. exact Hv. }
      rewrite Hnext.
      rewrite (IH (verb0 ++ String a "") fuel); try assumption.
      * rewrite append_assoc. reflexivity.
      * discriminate.
      * simpl in Hfuel |- *. lia.
Qed.





(** The runes of a string do not depend on the fuel, once there is enough. *)
Lemma runes_loop_fuel (fuel1 : nat) :
  forall (fuel2 : nat) (v : string),
    (String.length v <= fuel1)%nat -> (String.length v <= fuel2)%nat ->
    runes_loop fuel1 v = runes_loop fuel2 v.
Proof.
  induction fuel1 as [|fuel1 IH]; intros fuel2 v H1 H2.
  - destruct v; [|simpl in H1; lia]. destruct fuel2; reflexivity.
  - destruct fuel2 as [|fuel2].
    + destruct v; [reflexivity|simpl in H2; lia].
    + cbn [runes_loop].
      destruct (ReadRune v) as [[r s']|err] eqn:Hread; [|reflexivity].
      apply ReadRune_spec in Hread as [Hlen _].
      rewrite (IH fuel2 s') by lia. reflexivity.
Qed.

Lemma runes_loop_enough (fuel : nat) (v : string) :
  (String.length v <= fuel)%nat -> runes_loop fuel v = runes v.
Proof.
  intros Hfuel. unfold runes. apply runes_loop_fuel; lia.
Qed.

(** On ASCII bytes the runes are the bytes, and the buffer is the text. *)
Lemma string_of_runes_plain (fuel : nat) :
  forall v : string,
    plain v = true -> (String.length v <= fuel)%nat ->
    string_of_runes (runes_loop fuel v) = v.
Proof.
  induction fuel as [|fuel IH]; intros v Hplain Hfuel.
  - destruct v; [reflexivity|simpl in Hfuel; lia].
  - destruct v as [|a v]; [reflexivity|].
    cbn [plain] in Hplain.
    apply andb_prop in Hplain as [Hplain Hv]. apply andb_prop in Hplain as [Ha _].
    apply Z.ltb_lt in Ha.
    cbn [runes_loop]. rewrite ReadRune_ascii by assumption.
    cbn [string_of_runes]. rewrite EncodeRune_ascii by assumption.
    cbn [append]. rewrite IH; [reflexivity|assumption|simpl in Hfuel; lia].
Qed.



(** C5 (counterexample to the claim as stated).  A verb name that stands
    between two spaces, without the trigger before it, is scanned in literal
    mode: ["bar"] and the registered ["foo"] both come out as literals. *)
Lemma verb_name_between_spaces_is_literal :
  tokenize " bar " [] = Some (Returned [spaceToken; literalToken "bar"; spaceToken])
  /\ tokenFromString "bar" [] = Some barToken
  /\ tokenize " foo " ["foo"] = Some (Returned [spaceToken; literalToken "foo"; spaceToken])
  /\ tokenFromString "foo" ["foo"] = Some (customVerbToken "foo").
Proof.
  repeat split; reflexivity.
Qed.

(** C5 (amended).  For every format string and every list of custom verbs,
    [tokenize] returns a token sequence, and in it no literal is the trigger
    followed by a standard or a registered custom verb name. *)
Theorem demoted_action_is_no_verb (f : string) (cv : list string) :
  exists ts,
    tokenize f cv = Some (Returned ts)
    /\ forall v, In (literalToken (":" ++ v)) ts -> tokenFromString v cv = None.
Proof.
  destruct (tokenize_returns f cv) as (ts & Heq & Hall).
  exists ts. split; [assumption|].
  intros v Hin. rewrite Forall_forall in Hall.
  exact (proj2 (Hall _ Hin v eq_refl)).
Qed.

Lemma demoted_action_is_no_verb_witness :
  exists ts,
    tokenize "a :zzz :foo" ["foo"] = Some (Returned ts)
    /\ forall v, In (literalToken (":" ++ v)) ts -> tokenFromString v ["foo"] = None.
Proof.
  exact (demoted_action_is_no_verb "a :zzz :foo" ["foo"]).
Defined.

(** ** Custom verbs at print time *)

Lemma lookup_context_first (v x : string) (before after : list ctxDef) :
  (forall d, In d before -> verb d <> v) ->
  lookup_context v (before ++ {| verb := v; value := x |} :: after)%list = Some x.
Proof.
  induction before as [|d before IH]; intros Hbefore; simpl.
  - now rewrite String.eqb_refl.
  - destruct (String.eqb_spec (verb d) v) as [E|_].
    + exfalso. apply (Hbefore d); [now left|exact E].
    + apply IH. intros d' Hd'. apply Hbefore. now right.
Qed.

Lemma lookup_context_none (v : string) (ctx : list ctxDef) :
  (forall d, In d ctx -> verb d <> v) -> lookup_context v ctx = None.
Proof.
  induction ctx as [|d ctx IH]; intros Hctx; simpl; [reflexivity|].
  destruct (String.eqb_spec (verb d) v) as [E|_].
  - exfalso. apply (Hctx d); [now left|exact E].
  - apply IH. intros d' Hd'. apply Hctx. now right.
Qed.

(** C3.  With ["foo"] registered, [":foo"] tokenizes to the custom verb
    token of ["foo"]; so it does under every list that registers ["foo"]
    and neither ["f"] nor ["fo"].  Printing a custom verb token returns the
    value of the first entry of the context under its verb, ["42"] for an
    entry from ["foo"] to ["42"], and writes nothing.  When no entry has the
    verb, the print returns the verb name and writes the diagnostic to the
    error stream, and a render goes on with the remaining tokens: its output
    is the verb name followed by theirs. *)
Theorem custom_verb_resolution :
  tokenize ":foo" ["foo"] = Some (Returned [customVerbToken "foo"])
  /\ (forall cv : list string,
         In "foo" cv -> ~ In "f" cv -> ~ In "fo" cv ->
         tokenize ":foo" cv = Some (Returned [customVerbToken "foo"]))
  /\ (forall (b : Bar) (v x : string) (before after : list ctxDef),
         context b = (before ++ {| verb := v; value := x |} :: after)%list ->
         (forall d, In d before -> verb d <> v) ->
         print (customVerbToken v) b = (Ok x, []))
  /\ (forall (b : Bar) (v : string) (rest : tokens),
         (forall d, In d (context b) -> verb d <> v) ->
         print (customVerbToken v) b = (Ok v, [unresolved_diagnostic])
         /\ render (customVerbToken v :: rest) b
            = match render rest b with
              | (Ok text, log) => (Ok (v ++ text), unresolved_diagnostic :: log)
              | (Panic msg, log) => (Panic msg, unresolved_diagnostic :: log)
              end).
Proof.
  split; [reflexivity|]. split; [|split].
  - intros cv Hfoo Hf Hfo.
    unfold tokenize. cbn [String.length tokenize_loop].
    unfold nextToken. rewrite ReadRune_ascii by (vm_compute; reflexivity).
    change (byte_val ":"%char =? 32) with false.
    change (byte_val ":"%char =? 58) with true.
    cbv iota. unfold readAction.
    rewrite readAction_loop_step by (vm_compute; reflexivity).
    cbn [append].
    rewrite (tokenFromString_unregistered "f" cv eq_refl Hf).
    change (readSeparator "oo") with false. cbv iota.
    rewrite readAction_loop_step by (vm_compute; reflexivity).
    cbn [append].
    rewrite (tokenFromString_unregistered "fo" cv eq_refl Hfo).
    change (readSeparator "o") with false. cbv iota.
    rewrite readAction_loop_step by (vm_compute; reflexivity).
    cbn [append].
    assert (Htok : tokenFromString "foo" cv = Some (customVerbToken "foo")).
    { unfold tokenFromString. cbn [String.eqb Ascii.eqb Bool.eqb].
      now apply customVerbFromString_In. }
    rewrite Htok. reflexivity.
  - intros b v x before after Hctx Hbefore.
    cbn [print]. unfold print_customVerbToken.
    rewrite Hctx, lookup_context_first by assumption. reflexivity.
  - intros b v rest Hctx.
    assert (Hprint : print (customVerbToken v) b = (Ok v, [unresolved_diagnostic])).
    { cbn [print]. unfold print_customVerbToken.
      rewrite lookup_context_none by assumption. reflexivity. }
    split; [assumption|].
    cbn [render]. rewrite Hprint.
    destruct (render rest b) as [[text|msg] log]; reflexivity.
Qed.

Lemma custom_verb_resolution_witness :
  tokenize ":foo" ["bar"; "foo"] = Some (Returned [customVerbToken "foo"])
  /\ print (customVerbToken "foo")
           (sample 10 0 [ {| verb := "bar"; value := "1" |};
                          {| verb := "foo"; value := "42" |};
                          {| verb := "foo"; value := "43" |} ])
     = (Ok "42", [])
  /\ render [customVerbToken "foo"; spaceToken; literalToken "x"] (sample 10 0 [])
     = (Ok "foo x", [unresolved_diagnostic]).
Proof.
  split; [|split].
  - apply (proj1 (proj2 custom_verb_resolution) ["bar"; "foo"]);
      simpl; intuition discriminate.
  - apply (proj1 (proj2 (proj2 custom_verb_resolution)) _ "foo" "42"
             [ {| verb := "bar"; value := "1" |} ]
             [ {| verb := "foo"; value := "43" |} ]).
    + reflexivity.
    + simpl. intros d [<-|[]]. discriminate.
  - apply (proj2 (proj2 (proj2 (proj2 custom_verb_resolution)) (sample 10 0 []) "foo"
                    [spaceToken; literalToken "x"]
                    (fun d (H : In d []) => match H with end))).
Defined.

(** C9.  The token sequence is a function of the format string and the list
    of custom verbs: [tokenize] returns for every input, and any two results
    for the same input are the same sequence.  The outcome of a print and
    of a render, text and diagnostics, is a function of the tokens and the
    state. *)
Theorem tokenize_and_render_deterministic :
  (forall (f : string) (cv : list string),
      exists ts,
        tokenize f cv = Some (Returned ts)
        /\ forall ts', tokenize f cv = Some (Returned ts') -> ts' = ts)
  /\ (forall (t : token) (b : Bar) (out1 out2 : printed),
         print t b = out1 -> print t b = out2 -> out1 = out2)
  /\ (forall (ts : tokens) (b : Bar) (out1 out2 : printed),
         render ts b = out1 -> render ts b = out2 -> out1 = out2).
Proof.
  split; [|split].
  - intros f cv. destruct (tokenize_returns f cv) as (ts & Heq & _).
    exists ts. split; [assumption|].
    intros ts' H. rewrite Heq in H. now injection H as ->.
  - intros t b out1 out2 H1 H2. now rewrite <- H1, <- H2.
  - intros ts b out1 out2 H1 H2. now rewrite <- H1, <- H2.
Qed.

Lemma tokenize_and_render_deterministic_witness :
  (exists ts,
      tokenize ":bar :percent" [] = Some (Returned ts)
      /\ forall ts', tokenize ":bar :percent" [] = Some (Returned ts') -> ts' = ts)
  /\ render [barToken; spaceToken; percentToken] (sample 10 1 [])
     = (Ok "[=========>] 100.0%", []).
Proof.
  split.
  - exact (proj1 tokenize_and_render_deterministic ":bar :percent" []).
  - apply (proj2 (proj2 tokenize_and_render_deterministic)
             [barToken; spaceToken; percentToken] (sample 10 1 [])
             _ _ eq_refl).
    vm_compute. reflexivity.
Defined.

(** ** The bar *)

(** For a value that is not negative, [int(f)] is the floor. *)
Lemma truncate_floor (m : positive) (e : Z) :
  truncate false m e = if 0 <=? e then Zpos m * 2 ^ e else Zpos m / 2 ^ (- e).
Proof.
  unfold truncate. destruct (Z.leb_spec 0 e).
  - now rewrite Z.shiftl_mul_pow2.
  - rewrite Z.shiftr_div_pow2 by lia. reflexivity.
Qed.

Lemma counts_ok_each (n : nat) :
  forall p q : Z,
    counts_ok n p = true -> p <= q < p + Z.of_nat n -> count_ok q = true.
Proof.
  induction n as [|n IH]; intros p q Hall Hq; [lia|].
  cbn [counts_ok] in Hall. apply andb_prop in Hall as [Hp Hrest].
  destruct (Z.eq_dec q p) as [->|Hne]; [assumption|].
  apply (IH (p + 1)); [assumption|lia].
Qed.

Lemma counts_ok_65536 : counts_ok (Z.to_nat 65536) 0 = true.
Proof.
  vm_compute. reflexivity.
Qed.

(** Up to 65535 columns the count of completed-fill glyphs is [p - 1],
    floored at zero. *)
Lemma complete_count (p : Z) :
  0 <= p <= 65535 ->
  int_of_float64 (math_Max 0 (float64_of_int (int64 (p - 1)))) = Z.max 0 (p - 1).
Proof.
  intros Hp. apply Z.eqb_eq. fold (count_ok p).
  apply (counts_ok_each (Z.to_nat 65536) 0 p counts_ok_65536).
  rewrite Z2Nat.id; lia.
Qed.

Lemma print_barToken_formula (b : Bar) (p : Z) :
  p = int_of_float64 (prog b * float64_of_int (width b))%float ->
  0 <= p <= width b -> width b <= 65535 ->
  print_barToken b
  = Ok (start b ++ repeat_string (complete b) (Z.to_nat (Z.max 0 (p - 1)))
        ++ head b ++ repeat_string (incomplete b) (Z.to_nat (width b - p))
        ++ end_ b).
Proof.
  intros Hp Hrange Hwidth. unfold print_barToken. rewrite <- Hp.
  rewrite complete_count by lia.
  assert (Hrest : int64 (width b - p) = width b - p).
  { unfold int64. rewrite Z.mod_small by lia. lia. }
  rewrite Hrest. unfold strings_Repeat.
  destruct (Z.ltb_spec (Z.max 0 (p - 1)) 0); [lia|].
  destruct (Z.ltb_spec (width b - p) 0); [lia|].
  reflexivity.
Qed.

(** C7.  With width 10, at fraction complete [0.0] the bar is the start
    cap, the head and ten incomplete-fill glyphs, with no completed-fill
    glyph; at [1.0] it is the start cap, nine completed-fill glyphs, the head
    and the end cap, with no incomplete-fill glyph.  In general, with [p] the
    integer part of the product of the fraction and the width, between zero
    and a width of up to 65535 columns, the bar is the start cap, [p - 1]
    (floored at zero) completed-fill glyphs, the head, [width - p]
    incomplete-fill glyphs and the end cap. *)
Theorem bar_rendering_bounds :
  (forall b : Bar,
      width b = 10 -> prog b = 0%float ->
      print barToken b
      = (Ok (start b ++ head b ++ repeat_string (incomplete b) 10 ++ end_ b), []))
  /\ (forall b : Bar,
         width b = 10 -> prog b = 1%float ->
         print barToken b
         = (Ok (start b ++ repeat_string (complete b) 9 ++ head b ++ end_ b), []))
  /\ (forall (b : Bar) (p : Z),
         p = int_of_float64 (prog b * float64_of_int (width b))%float ->
         0 <= p <= width b -> width b <= 65535 ->
         print barToken b
         = (Ok (start b ++ repeat_string (complete b) (Z.to_nat (Z.max 0 (p - 1)))
                ++ head b ++ repeat_string (incomplete b) (Z.to_nat (width b - p))
                ++ end_ b), [])).
Proof.
  split; [|split].
  - intros [] Hw Hp. cbn [width prog] in Hw, Hp. subst. vm_compute. reflexivity.
  - intros [] Hw Hp. cbn [width prog] in Hw, Hp. subst. vm_compute. reflexivity.
  - intros b p Hp Hrange Hwidth. cbn [print].
    now rewrite (print_barToken_formula b p Hp Hrange Hwidth).
Qed.

Lemma bar_rendering_bounds_witness :
  print barToken (sample 10 0 []) = (Ok "[>----------]", [])
  /\ print barToken (sample 10 1 []) = (Ok "[=========>]", [])
  /\ print barToken (sample 10 0.5 []) = (Ok "[====>-----]", []).
Proof.
  split; [|split].
  - exact (proj1 bar_rendering_bounds (sample 10 0 []) eq_refl eq_refl).
  - exact (proj1 (proj2 bar_rendering_bounds) (sample 10 1 []) eq_refl eq_refl).
  - apply (proj2 (proj2 bar_rendering_bounds) (sample 10 0.5 []) 5).
    + vm_compute. reflexivity.
    + simpl. lia.
    + simpl. lia.
Defined.

(** C4 (the code departs from the claim).  With width 10 and one-byte
    glyphs, the bar at fraction complete [0.0] has eleven glyphs between its
    caps and is 13 bytes long; at [0.1], [0.5] and [1.0] it has ten and is
    12 bytes long. *)
Theorem bar_is_longer_at_zero :
  print barToken (sample 10 0 []) = (Ok "[>----------]", [])
  /\ print barToken (sample 10 0x1.999999999999ap-4 []) = (Ok "[>---------]", [])
  /\ print barToken (sample 10 0.5 []) = (Ok "[====>-----]", [])
  /\ print barToken (sample 10 1 []) = (Ok "[=========>]", [])
  /\ String.length "[>----------]" = 13%nat
  /\ String.length "[=========>]" = 12%nat.
Proof.
  repeat split; vm_compute; reflexivity.
Qed.

(** ** The percentage *)

Lemma fraction_0_2567_nearest :
  Prim2SF fraction_0_2567 = S754_finite false 4624296097384025 (-54)
  /\ 2 * Z.abs (10000 * 4624296097384025 - 2567 * 2 ^ 54) <= 10000.
Proof.
  split; [vm_compute; reflexivity|vm_compute; discriminate].
Qed.

Lemma decimal_digit (d : Z) : 0 <= d < 10 -> String.length (decimal d) = 1%nat.
Proof.
  intros Hd.
  assert (H : d = 0 \/ d = 1 \/ d = 2 \/ d = 3 \/ d = 4 \/ d = 5 \/ d = 6
              \/ d = 7 \/ d = 8 \/ d = 9) by lia.
  repeat (destruct H as [->|H]; [reflexivity|]). subst d. reflexivity.
Qed.

Lemma numeral_decimal (n : Z) : 0 <= n -> numeral (decimal n) = Some n.
Proof.
  intros Hn. unfold numeral, decimal.
  rewrite NilZero.usu.
  - cbn [option_map]. rewrite DecimalN.Unsigned.of_to, Z2N.id by assumption.
    reflexivity.
  - destruct (Z.to_N n) as [|p]; [discriminate|].
    apply DecimalPos.Unsigned.to_uint_nonnil.
Qed.

Lemma round_tenths_nearest (m : positive) (e : Z) :
  nearest_tenths m e (round_tenths m e).
Proof.
  unfold nearest_tenths, round_tenths.
  destruct (Z.leb_spec 0 e) as [He|He].
  - rewrite Z.shiftl_mul_pow2 by assumption.
    replace (Z.max 0 (- e)) with 0 by lia. replace (Z.max 0 e) with e by lia.
    change (2 ^ 0) with 1.
    replace (10 * Z.pos m * 2 ^ e * 1 - 10 * Z.pos m * 2 ^ e) with 0 by lia.
    cbn. split; [lia|discriminate].
  - rewrite Z.shiftl_mul_pow2 by lia.
    replace (Z.max 0 (- e)) with (- e) by lia. replace (Z.max 0 e) with 0 by lia.
    change (2 ^ 0) with 1. rewrite !Z.mul_1_l, Z.mul_1_r.
    assert (Hd : 0 < 2 ^ (- e)) by (apply Z.pow_pos_nonneg; lia).
    set (d := 2 ^ (- e)) in *. set (x := 10 * Z.pos m).
    pose proof (Z.div_mod x d ltac:(lia)) as Hx.
    pose proof (Z.mod_pos_bound x d Hd) as Hr.
    set (q := x / d) in *. set (r := x mod d) in *.
    destruct (Z.ltb_spec d (2 * r)).
    + split; [nia|]. intros E. nia.
    + destruct (Z.eqb_spec d (2 * r)) as [E2|N2]; cbn [andb].
      * destruct (Z.odd q) eqn:Hodd.
        -- split; [nia|]. intros _.
           rewrite Z.even_add, <- Z.negb_odd, Hodd. reflexivity.
        -- split; [nia|]. intros _. rewrite <- Z.negb_odd, Hodd. reflexivity.
      * split; [nia|]. intros E. exfalso. nia.
Qed.

Lemma nearest_tenths_unique (m : positive) (e n n' : Z) :
  nearest_tenths m e n -> nearest_tenths m e n' -> n' = n.
Proof.
  unfold nearest_tenths.
  assert (Hd : 0 < 2 ^ Z.max 0 (- e)) by (apply Z.pow_pos_nonneg; lia).
  set (d := 2 ^ Z.max 0 (- e)) in *. set (x := 10 * Z.pos m * 2 ^ Z.max 0 e).
  cbv zeta. intros [H1 E1] [H2 E2].
  assert (Hcases : n' = n \/ n' = n + 1 \/ n' = n - 1 \/ n' >= n + 2 \/ n' <= n - 2) by lia.
  destruct Hcases as [H|[H|[H|[H|H]]]]; [assumption| | | |].
  - subst n'. exfalso.
    assert (T1 : 2 * Z.abs (n * d - x) = d) by nia.
    assert (T2 : 2 * Z.abs ((n + 1) * d - x) = d) by nia.
    specialize (E1 T1). specialize (E2 T2).
    rewrite Z.even_add, E1 in E2. discriminate.
  - subst n'. exfalso.
    assert (T1 : 2 * Z.abs (n * d - x) = d) by nia.
    assert (T2 : 2 * Z.abs ((n - 1) * d - x) = d) by nia.
    specialize (E1 T1). specialize (E2 T2).
    rewrite Z.even_sub, E1 in E2. discriminate.
  - exfalso. nia.
  - exfalso. nia.
Qed.

Lemma round_tenths_nonneg (m : positive) (e : Z) : 0 <= round_tenths m e.
Proof.
  unfold round_tenths. destruct (Z.leb_spec 0 e).
  - apply Z.shiftl_nonneg. lia.
  - assert (Hd : 0 < Z.shiftl 1 (- e))
      by (rewrite Z.shiftl_mul_pow2 by lia; apply Z.mul_pos_pos;
          [lia|apply Z.pow_pos_nonneg; lia]).
    assert (Hq : 0 <= 10 * Z.pos m / Z.shiftl 1 (- e))
      by (apply Z.div_pos; lia).
    repeat match goal with
           | |- context [if ?c then _ else _] => destruct c
           end; lia.
Qed.

(** C8.  At fraction complete [0.2567] the percent token prints ["25.7%"].
    Whenever the fraction times 100 is a finite number other than zero, the
    output is a whole part, a point, exactly one decimal digit and the
    percent sign: the sign, then the decimal numerals of [n / 10] and of
    [n mod 10] around the point, for the one number [n] of tenths that is
    nearest to the value (the even one when the value lies halfway).  When
    the fraction times 100 is zero the output is ["0.0%"], behind the sign
    of the zero. *)
Theorem percent_formatting :
  (forall b : Bar,
      prog b = fraction_0_2567 -> print percentToken b = (Ok "25.7%", []))
  /\ (forall (b : Bar) (s : bool) (m : positive) (e : Z),
         Prim2SF (prog b * 100)%float = S754_finite s m e ->
         exists whole tenth,
           String.length tenth = 1%nat
           /\ print percentToken b = (Ok (whole ++ "." ++ tenth ++ "%"), []))
  /\ (forall (b : Bar) (s : bool) (m : positive) (e : Z),
         Prim2SF (prog b * 100)%float = S754_finite s m e ->
         exists n,
           nearest_tenths m e n
           /\ (forall n', nearest_tenths m e n' -> n' = n)
           /\ 0 <= n
           /\ print percentToken b
              = (Ok ((if s then "-" else "") ++ decimal (n / 10) ++ "."
                     ++ decimal (n mod 10) ++ "%"), [])
           /\ numeral (decimal (n / 10)) = Some (n / 10)
           /\ numeral (decimal (n mod 10)) = Some (n mod 10)
           /\ String.length (decimal (n mod 10)) = 1%nat)
  /\ (forall (b : Bar) (s : bool),
         Prim2SF (prog b * 100)%float = S754_zero s ->
         print percentToken b = (Ok ((if s then "-" else "") ++ "0.0%"), [])).
Proof.
  split; [|split; [|split]].
  - intros [] Hp. cbn [prog] in Hp. subst. vm_compute. reflexivity.
  - intros b s m e Hsf.
    exists ((if s then "-" else "") ++ decimal (round_tenths m e / 10)),
           (decimal (round_tenths m e mod 10)).
    split.
    + apply decimal_digit, Z.mod_pos_bound. lia.
    + cbn [print]. unfold print_percentToken, sprintf_1f. rewrite Hsf.
      rewrite !append_assoc. reflexivity.
  - intros b s m e Hsf. exists (round_tenths m e).
    pose proof (round_tenths_nonneg m e) as Hn.
    pose proof (round_tenths_nearest m e) as Hnear.
    split; [assumption|]. split.
    { intros n' Hn'. exact (nearest_tenths_unique m e _ n' Hnear Hn'). }
    split; [assumption|]. split.
    { cbn [print]. unfold print_percentToken, sprintf_1f. rewrite Hsf.
      rewrite !append_assoc. reflexivity. }
    split; [apply numeral_decimal, Z.div_pos; lia|].
    split; [apply numeral_decimal, Z.mod_pos_bound; lia|].
    apply decimal_digit, Z.mod_pos_bound. lia.
  - intros b s Hsf. cbn [print]. unfold print_percentToken, sprintf_1f.
    rewrite Hsf. rewrite !append_assoc. reflexivity.
Qed.

Lemma percent_formatting_witness :
  print percentToken (sample 10 fraction_0_2567 []) = (Ok "25.7%", [])
  /\ (exists n,
         nearest_tenths 7225462652162539%positive (-48) n
         /\ (forall n', nearest_tenths 7225462652162539%positive (-48) n' -> n' = n)
         /\ 0 <= n
         /\ print percentToken (sample 10 fraction_0_2567 [])
            = (Ok ("" ++ decimal (n / 10) ++ "." ++ decimal (n mod 10) ++ "%"), [])
         /\ numeral (decimal (n / 10)) = Some (n / 10)
         /\ numeral (decimal (n mod 10)) = Some (n mod 10)
         /\ String.length (decimal (n mod 10)) = 1%nat)
  /\ print percentToken (sample 10 0 []) = (Ok "0.0%", []).
Proof.
  split; [|split].
  - exact (proj1 percent_formatting (sample 10 fraction_0_2567 []) eq_refl).
  - apply (proj1 (proj2 (proj2 percent_formatting))
             (sample 10 fraction_0_2567 []) false 7225462652162539%positive (-48)).
    vm_compute. reflexivity.
  - apply (proj2 (proj2 (proj2 percent_formatting)) (sample 10 0 []) false).
    vm_compute. reflexivity.
Defined.

(** * Further properties of the scanner *)

Lemma length_append (s1 s2 : string) :
  String.length (s1 ++ s2) = (String.length s1 + String.length s2)%nat.
Proof.
  induction s1 as [|a s1 IH]; simpl; [reflexivity|now rewrite IH].
Qed.

(** ** The fuel of the model does not matter *)

Lemma readLiteral_loop_fuel (fuel1 : nat) :
  forall (fuel2 : nat) (value : string) (s : stream),
    (String.length s < fuel1)%nat -> (String.length s < fuel2)%nat ->
    readLiteral_loop fuel1 value s = readLiteral_loop fuel2 value s.
Proof.
  induction fuel1 as [|fuel1 IH]; intros fuel2 value s H1 H2; [lia|].
  destruct fuel2 as [|fuel2]; [lia|].
  cbn [readLiteral_loop].
  destruct (readSeparator s); [reflexivity|].
  destruct (ReadRune s) as [[r s']|err] eqn:Hread; [|reflexivity].
  apply ReadRune_spec in Hread as [Hlen _].
  apply IH; lia.
Qed.

Lemma readAction_loop_fuel (cv : list string) (fuel1 : nat) :
  forall (fuel2 : nat) (verb0 : string) (s : stream),
    (String.length s < fuel1)%nat -> (String.length s < fuel2)%nat ->
    readAction_loop fuel1 cv verb0 s = readAction_loop fuel2 cv verb0 s.
Proof.
  induction fuel1 as [|fuel1 IH]; intros fuel2 verb0 s H1 H2; [lia|].
  destruct fuel2 as [|fuel2]; [lia|].
  cbn [readAction_loop].
  destruct (ReadRune s) as [[r s']|err] eqn:Hread; [|reflexivity].
  apply ReadRune_spec in Hread as [Hlen _].
  destruct (tokenFromString (verb0 ++ utf8.EncodeRune r) cv); [reflexivity|].
  destruct (readSeparator s'); [reflexivity|].
  apply IH; lia.
Qed.

Lemma nextToken_fuel (cv : list string) (fuel1 fuel2 : nat) (s : stream) :
  (String.length s <= fuel1)%nat -> (String.length s <= fuel2)%nat ->
  nextToken fuel1 cv s = nextToken fuel2 cv s.
Proof.
  intros H1 H2. unfold nextToken, readAction, readLiteral.
  destruct (ReadRune s) as [[r s']|err] eqn:Hread; [|reflexivity].
  apply ReadRune_spec in Hread as [Hlen _].
  destruct (r =? 32); [reflexivity|].
  destruct (r =? 58).
  - apply readAction_loop_fuel; lia.
  - apply readLiteral_loop_fuel; lia.
Qed.

(** Two runs of the loop of [tokenize] on the same stream append the same
    tokens, whatever they start from. *)
Lemma tokenize_loop_fuel (cv : list string) (fuel1 : nat) :
  forall (fuel2 : nat) (t1 t2 : tokens) (s : stream),
    (String.length s < fuel1)%nat -> (String.length s < fuel2)%nat ->
    exists ts,
      tokenize_loop fuel1 cv t1 s = Some (Returned (t1 ++ ts)%list)
      /\ tokenize_loop fuel2 cv t2 s = Some (Returned (t2 ++ ts)%list).
Proof.
  induction fuel1 as [|fuel1 IH]; intros fuel2 t1 t2 s H1 H2; [lia|].
  destruct fuel2 as [|fuel2]; [lia|].
  cbn [tokenize_loop].
  rewrite (nextToken_fuel cv fuel2 fuel1 s) by lia.
  destruct (nextToken_spec cv fuel1 s ltac:(lia)) as ([[tkn|err] s'] & Heq & Hout);
    rewrite Heq; simpl in Hout.
  - destruct Hout as [Hlen _].
    destruct (IH fuel2 (t1 ++ [tkn])%list (t2 ++ [tkn])%list s' ltac:(lia) ltac:(lia))
      as (ts & E1 & E2).
    exists (tkn :: ts). rewrite E1, E2, <- !app_assoc. split; reflexivity.
  - subst err. exists []. rewrite !app_nil_r. split; reflexivity.
Qed.

(** The first token and the tokens of the rest. *)
Lemma tokenize_cons (cv : list string) (fuel : nat) (s s' : stream) (tkn : token) :
  (String.length s <= fuel)%nat ->
  nextToken fuel cv s = Some (inl tkn, s') ->
  exists ts,
    tokenize s' cv = Some (Returned ts)
    /\ tokenize s cv = Some (Returned (tkn :: ts)).
Proof.
  intros Hfuel Hnext. unfold tokenize at 2. cbn [tokenize_loop].
  rewrite (nextToken_fuel cv (String.length s) fuel s) by lia.
  rewrite Hnext.
  destruct (nextToken_spec cv fuel s Hfuel) as (out & Heq & Hout).
  rewrite Hnext in Heq. injection Heq as <-. destruct Hout as [Hlen _].
  destruct (tokenize_loop_fuel cv (String.length s) (S (String.length s'))
              ([] ++ [tkn])%list [] s' ltac:(lia) ltac:(lia)) as (ts & E1 & E2).
  exists ts. split; [exact E2|]. rewrite E1. reflexivity.
Qed.

Lemma tokenize_end (cv : list string) (fuel : nat) (s s' : stream) (err : error) :
  (String.length s <= fuel)%nat ->
  nextToken fuel cv s = Some (inr err, s') ->
  tokenize s cv = Some (Returned []).
Proof.
  intros Hfuel Hnext. unfold tokenize. cbn [tokenize_loop].
  rewrite (nextToken_fuel cv (String.length s) fuel s) by lia.
  rewrite Hnext.
  destruct (nextToken_spec cv fuel s Hfuel) as (out & Heq & Hout).
  rewrite Hnext in Heq. injection Heq as <-. simpl in Hout. subst err.
  reflexivity.
Qed.

(** ** Encoding and decoding a rune *)

Lemma land_low_high (a b n : Z) :
  0 <= n -> 0 <= b < 2 ^ n -> Z.land (a * 2 ^ n) b = 0.
Proof.
  intros Hn Hb. apply Z.bits_inj'. intros i Hi.
  rewrite Z.land_spec, Z.bits_0.
  destruct (Z.lt_ge_cases i n) as [Hlt|Hge].
  - rewrite Z.mul_pow2_bits_low by lia. reflexivity.
  - destruct (Z.eq_dec b 0) as [->|Hb0]; [now rewrite Z.bits_0, andb_false_r|].
    rewrite (Z.bits_above_log2 b i); [now rewrite andb_false_r|lia|].
    apply Z.log2_lt_pow2; [lia|].
    apply Z.lt_le_trans with (2 ^ n); [lia|].
    apply Z.pow_le_mono_r; lia.
Qed.

Lemma lor_low_high (a b n : Z) :
  0 <= n -> 0 <= b < 2 ^ n -> Z.lor (a * 2 ^ n) b = a * 2 ^ n + b.
Proof.
  intros Hn Hb. rewrite <- Z.lxor_lor by now apply land_low_high.
  symmetry. apply Z.add_nocarry_lxor. now apply land_low_high.
Qed.

Ltac arith := Z.div_mod_to_equations; lia.

Ltac pow2 :=
  change (2 ^ 3) with 8 in *; change (2 ^ 4) with 16 in *; change (2 ^ 5) with 32 in *;
  change (2 ^ 6) with 64 in *; change (2 ^ 12) with 4096 in *;
  change (2 ^ 18) with 262144 in *.

Lemma land_low (x n : Z) : 0 <= n -> Z.land x (Z.ones n) = x mod 2 ^ n.
Proof. intros. now apply Z.land_ones. Qed.

(** The bytes of the two-byte form. *)
Lemma EncodeRune_2 (r : rune) :
  0x80 <= r <= 0x7FF ->
  exists a0 a1,
    utf8.EncodeRune r = String a0 (String a1 "")
    /\ byte_val a0 = 192 + r / 64
    /\ byte_val a1 = 128 + r mod 64.
Proof.
  intros Hr. unfold utf8.EncodeRune, uint32.
  rewrite (Z.mod_small r (2 ^ 32)) by lia.
  unfold utf8.rune1Max, utf8.rune2Max.
  destruct (Z.leb_spec r 127); [lia|].
  destruct (Z.leb_spec r 2047); [|lia].
  eexists _, _. split; [reflexivity|].
  rewrite !byte_val_of, Z.shiftr_div_pow2 by lia.
  change utf8.maskx with (Z.ones 6). rewrite land_low by lia.
  change utf8.t2 with (6 * 2 ^ 5). change utf8.tx with (2 * 2 ^ 6).
  rewrite !lor_low_high by (try lia; pow2; arith).
  pow2. split; arith.
Qed.

Lemma EncodeRune_3 (r : rune) :
  0x800 <= r <= 0xFFFF -> ~ (0xD800 <= r <= 0xDFFF) ->
  exists a0 a1 a2,
    utf8.EncodeRune r = String a0 (String a1 (String a2 ""))
    /\ byte_val a0 = 224 + r / 4096
    /\ byte_val a1 = 128 + (r / 64) mod 64
    /\ byte_val a2 = 128 + r mod 64.
Proof.
  intros Hr Hs. unfold utf8.EncodeRune, uint32.
  rewrite (Z.mod_small r (2 ^ 32)) by lia.
  unfold utf8.rune1Max, utf8.rune2Max, utf8.rune3Max, utf8.MaxRune,
    utf8.surrogateMin, utf8.surrogateMax.
  destruct (Z.leb_spec r 127); [lia|].
  destruct (Z.leb_spec r 2047); [lia|].
  destruct (Z.ltb_spec 1114111 r); [lia|].
  destruct (Z.leb_spec 55296 r); destruct (Z.leb_spec r 57343); try lia;
    cbn [orb andb]; (destruct (Z.leb_spec r 65535); [|lia]);
    unfold utf8.encode3; (eexists _, _, _; split; [reflexivity|]);
    rewrite !byte_val_of, !Z.shiftr_div_pow2 by lia;
    change utf8.maskx with (Z.ones 6); rewrite !land_low by lia;
    change utf8.t3 with (14 * 2 ^ 4); change utf8.tx with (2 * 2 ^ 6);
    rewrite !lor_low_high by (try lia; pow2; arith);
    pow2; repeat split; arith.
Qed.

Lemma EncodeRune_4 (r : rune) :
  0x10000 <= r <= 0x10FFFF ->
  exists a0 a1 a2 a3,
    utf8.EncodeRune r = String a0 (String a1 (String a2 (String a3 "")))
    /\ byte_val a0 = 240 + r / 262144
    /\ byte_val a1 = 128 + (r / 4096) mod 64
    /\ byte_val a2 = 128 + (r / 64) mod 64
    /\ byte_val a3 = 128 + r mod 64.
Proof.
  intros Hr. unfold utf8.EncodeRune, uint32.
  rewrite (Z.mod_small r (2 ^ 32)) by lia.
  unfold utf8.rune1Max, utf8.rune2Max, utf8.rune3Max, utf8.MaxRune,
    utf8.surrogateMin, utf8.surrogateMax.
  destruct (Z.leb_spec r 127); [lia|].
  destruct (Z.leb_spec r 2047); [lia|].
  destruct (Z.ltb_spec 1114111 r); [lia|].
  destruct (Z.leb_spec 55296 r); destruct (Z.leb_spec r 57343); try lia;
    cbn [orb andb]; (destruct (Z.leb_spec r 65535); [lia|]);
    (eexists _, _, _, _; split; [reflexivity|]);
    rewrite !byte_val_of, !Z.shiftr_div_pow2 by lia;
    change utf8.maskx with (Z.ones 6); rewrite !land_low by lia;
    change utf8.t4 with (30 * 2 ^ 3); change utf8.tx with (2 * 2 ^ 6);
    rewrite !lor_low_high by (try lia; pow2; arith);
    pow2; repeat split; arith.
Qed.

Ltac first_by_cases :=
  unfold utf8.first;
  repeat match goal with
         | |- context [?a <? ?b] => destruct (Z.ltb_spec a b); try lia
         | |- context [?a =? ?b] => destruct (Z.eqb_spec a b); try lia
         end; reflexivity.

Lemma first_s1 (p : Z) : 0xC2 <= p <= 0xDF -> utf8.first p = utf8.s1.
Proof. intros. first_by_cases. Qed.
Lemma first_s2 : utf8.first 0xE0 = utf8.s2.
Proof. reflexivity. Qed.
Lemma first_s3 (p : Z) :
  0xE1 <= p <= 0xEF -> p <> 0xED -> utf8.first p = utf8.s3.
Proof. intros. first_by_cases. Qed.
Lemma first_s4 : utf8.first 0xED = utf8.s4.
Proof. reflexivity. Qed.
Lemma first_s5 : utf8.first 0xF0 = utf8.s5.
Proof. reflexivity. Qed.
Lemma first_s6 (p : Z) : 0xF1 <= p <= 0xF3 -> utf8.first p = utf8.s6.
Proof. intros. first_by_cases. Qed.
Lemma first_s7 : utf8.first 0xF4 = utf8.s7.
Proof. reflexivity. Qed.

Lemma int32_small (z : Z) : - 2 ^ 31 <= z < 2 ^ 31 -> int32 z = z.
Proof.
  intros Hz. unfold int32. rewrite Z.mod_small by lia. lia.
Qed.

Ltac decode_tests :=
  repeat match goal with
         | |- context [?a <? ?b] => destruct (Z.ltb_spec a b); try lia
         | |- context [?a <=? ?b] => destruct (Z.leb_spec a b); try lia
         end.

Ltac to_arith :=
  change utf8.maskx with (Z.ones 6); change utf8.mask2 with (Z.ones 5);
  change utf8.mask3 with (Z.ones 4); change utf8.mask4 with (Z.ones 3);
  rewrite !land_low, !Z.shiftl_mul_pow2 by lia.

Lemma DecodeRune_2 (a0 a1 : byte) (rest : string) (h l : Z) :
  byte_val a0 = 192 + h -> 2 <= h < 32 ->
  byte_val a1 = 128 + l -> 0 <= l < 64 ->
  utf8.DecodeRune (String a0 (String a1 rest)) = (h * 64 + l, 2%nat).
Proof.
  intros Ha0 Hh Ha1 Hl. unfold utf8.DecodeRune. cbv zeta.
  rewrite Ha0, (first_s1 (192 + h)) by lia.
  change (utf8.as_ <=? utf8.s1) with false. cbv iota.
  change (Z.land utf8.s1 7) with 2.
  change (utf8.acceptRanges (Z.shiftr utf8.s1 4)) with (utf8.locb, utf8.hicb).
  cbn [fst snd byte_at String.length]. rewrite Ha1.
  unfold utf8.locb, utf8.hicb.
  decode_tests. cbn [orb]. f_equal.
  to_arith.
  assert (E1 : (192 + h) mod 2 ^ 5 = h) by (pow2; arith).
  assert (E2 : (128 + l) mod 2 ^ 6 = l) by (pow2; arith).
  rewrite E1, E2, lor_low_high by (pow2; lia).
  pow2. apply int32_small. lia.
Qed.

Ltac decode_consts x :=
  let v1 := eval vm_compute in (utf8.as_ <=? x) in
  change (utf8.as_ <=? x) with v1;
  let v2 := eval vm_compute in (Z.land x 7) in
  change (Z.land x 7) with v2;
  let v3 := eval vm_compute in (utf8.acceptRanges (Z.shiftr x 4)) in
  change (utf8.acceptRanges (Z.shiftr x 4)) with v3;
  cbv iota; cbn [fst snd byte_at String.length].

Lemma DecodeRune_3 (a0 a1 a2 : byte) (rest : string) (h m l : Z) :
  byte_val a0 = 224 + h -> 0 <= h < 16 ->
  byte_val a1 = 128 + m -> 0 <= m < 64 ->
  byte_val a2 = 128 + l -> 0 <= l < 64 ->
  (h = 0 -> 32 <= m) -> (h = 13 -> m < 32) ->
  utf8.DecodeRune (String a0 (String a1 (String a2 rest)))
  = (h * 4096 + m * 64 + l, 3%nat).
Proof.
  intros Ha0 Hh Ha1 Hm Ha2 Hl H0 H13. unfold utf8.DecodeRune. cbv zeta.
  rewrite Ha0.
  assert (Hfinish :
            int32 (Z.lor (Z.lor (Z.shiftl (Z.land (224 + h) utf8.mask3) 12)
                                (Z.shiftl (Z.land (128 + m) utf8.maskx) 6))
                         (Z.land (128 + l) utf8.maskx))
            = h * 4096 + m * 64 + l).
  { to_arith.
    assert (E1 : (224 + h) mod 2 ^ 4 = h) by (pow2; arith).
    assert (E2 : (128 + m) mod 2 ^ 6 = m) by (pow2; arith).
    assert (E3 : (128 + l) mod 2 ^ 6 = l) by (pow2; arith).
    rewrite E1, E2, E3.
    rewrite (lor_low_high h (m * 2 ^ 6) 12) by (pow2; lia).
    replace (h * 2 ^ 12 + m * 2 ^ 6) with ((h * 2 ^ 6 + m) * 2 ^ 6) by (pow2; lia).
    rewrite lor_low_high by (pow2; lia).
    pow2. rewrite int32_small by lia. lia. }
  assert (Hcases : h = 0 \/ h = 13 \/ (1 <= h <= 15 /\ h <> 13)) by lia.
  destruct Hcases as [->|[->|[Hr Hne]]].
  - change (224 + 0) with 0xE0 in *. rewrite first_s2. decode_consts utf8.s2.
    rewrite Ha1, Ha2. unfold utf8.locb, utf8.hicb. specialize (H0 eq_refl).
    decode_tests. cbn [orb]. now rewrite Hfinish.
  - change (224 + 13) with 0xED in *. rewrite first_s4. decode_consts utf8.s4.
    rewrite Ha1, Ha2. unfold utf8.locb, utf8.hicb. specialize (H13 eq_refl).
    decode_tests. cbn [orb]. now rewrite Hfinish.
  - rewrite (first_s3 (224 + h)) by lia. decode_consts utf8.s3.
    rewrite Ha1, Ha2. unfold utf8.locb, utf8.hicb.
    decode_tests. cbn [orb]. now rewrite Hfinish.
Qed.

Lemma DecodeRune_4 (a0 a1 a2 a3 : byte) (rest : string) (h m1 m2 l : Z) :
  byte_val a0 = 240 + h -> 0 <= h <= 4 ->
  byte_val a1 = 128 + m1 -> 0 <= m1 < 64 ->
  byte_val a2 = 128 + m2 -> 0 <= m2 < 64 ->
  byte_val a3 = 128 + l -> 0 <= l < 64 ->
  (h = 0 -> 16 <= m1) -> (h = 4 -> m1 < 16) ->
  utf8.DecodeRune (String a0 (String a1 (String a2 (String a3 rest))))
  = (h * 262144 + m1 * 4096 + m2 * 64 + l, 4%nat).
Proof.
  intros Ha0 Hh Ha1 Hm1 Ha2 Hm2 Ha3 Hl H0 H4. unfold utf8.DecodeRune. cbv zeta.
  rewrite Ha0.
  assert (Hfinish :
            int32 (Z.lor (Z.lor (Z.lor (Z.shiftl (Z.land (240 + h) utf8.mask4) 18)
                                       (Z.shiftl (Z.land (128 + m1) utf8.maskx) 12))
                                (Z.shiftl (Z.land (128 + m2) utf8.maskx) 6))
                         (Z.land (128 + l) utf8.maskx))
            = h * 262144 + m1 * 4096 + m2 * 64 + l).
  { to_arith.
    assert (E0 : (240 + h) mod 2 ^ 3 = h) by (pow2; arith).
    assert (E1 : (128 + m1) mod 2 ^ 6 = m1) by (pow2; arith).
    assert (E2 : (128 + m2) mod 2 ^ 6 = m2) by (pow2; arith).
    assert (E3 : (128 + l) mod 2 ^ 6 = l) by (pow2; arith).
    rewrite E0, E1, E2, E3.
    rewrite (lor_low_high h (m1 * 2 ^ 12) 18) by (pow2; lia).
    replace (h * 2 ^ 18 + m1 * 2 ^ 12) with ((h * 2 ^ 6 + m1) * 2 ^ 12) by (pow2; lia).
    rewrite (lor_low_high (h * 2 ^ 6 + m1) (m2 * 2 ^ 6) 12) by (pow2; lia).
    replace ((h * 2 ^ 6 + m1) * 2 ^ 12 + m2 * 2 ^ 6)
      with (((h * 2 ^ 6 + m1) * 2 ^ 6 + m2) * 2 ^ 6) by (pow2; lia).
    rewrite lor_low_high by (pow2; lia).
    pow2. rewrite int32_small by lia. lia. }
  assert (Hcases : h = 0 \/ h = 4 \/ 1 <= h <= 3) by lia.
  destruct Hcases as [->|[->|Hr]].
  - change (240 + 0) with 0xF0 in *. rewrite first_s5. decode_consts utf8.s5.
    rewrite Ha1, Ha2, Ha3. unfold utf8.locb, utf8.hicb. specialize (H0 eq_refl).
    decode_tests. cbn [orb]. now rewrite Hfinish.
  - change (240 + 4) with 0xF4 in *. rewrite first_s7. decode_consts utf8.s7.
    rewrite Ha1, Ha2, Ha3. unfold utf8.locb, utf8.hicb. specialize (H4 eq_refl).
    decode_tests. cbn [orb]. now rewrite Hfinish.
  - rewrite (first_s6 (240 + h)) by lia. decode_consts utf8.s6.
    rewrite Ha1, Ha2, Ha3. unfold utf8.locb, utf8.hicb.
    decode_tests. cbn [orb]. now rewrite Hfinish.
Qed.

Lemma scalar_range (r : rune) :
  scalar r = true -> 0 <= r <= 0x10FFFF /\ ~ (0xD800 <= r <= 0xDFFF).
Proof.
  unfold scalar, utf8.MaxRune, utf8.surrogateMin, utf8.surrogateMax. intros H.
  apply andb_prop in H as [H Hs]. apply andb_prop in H as [H0 H1].
  apply Z.leb_le in H0, H1. apply negb_true_iff in Hs.
  split; [lia|]. intros [Ha Hb].
  apply Z.leb_le in Ha, Hb. rewrite Ha, Hb in Hs. discriminate.
Qed.

Lemma ReadRune_lead (a0 : byte) (rest : string) :
  128 <= byte_val a0 ->
  ReadRune (String a0 rest)
  = let '(r, size) := utf8.DecodeRune (String a0 rest) in
    inl (r, skip size (String a0 rest)).
Proof.
  intros Ha. unfold ReadRune, utf8.RuneSelf.
  destruct (Z.ltb_spec (byte_val a0) 128); [lia|reflexivity].
Qed.

(** Reading back what [EncodeRune] wrote gives the rune and leaves what
    follows. *)
Lemma ReadRune_EncodeRune (r : rune) (rest : string) :
  scalar r = true -> ReadRune (utf8.EncodeRune r ++ rest) = inl (r, rest).
Proof.
  intros Hs. apply scalar_range in Hs as [Hr Hsur].
  assert (Hcases : r <= 0x7F \/ 0x80 <= r <= 0x7FF \/ 0x800 <= r <= 0xFFFF
                   \/ 0x10000 <= r <= 0x10FFFF) by lia.
  destruct Hcases as [H1|[H2|[H3|H4]]].
  - assert (Hb : byte_val (byte_of r) = r)
      by (rewrite byte_val_of; apply Z.mod_small; lia).
    remember (byte_of r) as a eqn:Ea. clear Ea. subst r.
    rewrite EncodeRune_ascii by lia.
    cbn [append]. apply ReadRune_ascii. lia.
  - destruct (EncodeRune_2 r H2) as (a0 & a1 & -> & Ha0 & Ha1).
    cbn [append]. rewrite ReadRune_lead by arith.
    rewrite (DecodeRune_2 a0 a1 rest (r / 64) (r mod 64)) by (assumption || arith).
    cbn [skip]. do 2 f_equal. arith.
  - destruct (EncodeRune_3 r H3 Hsur) as (a0 & a1 & a2 & -> & Ha0 & Ha1 & Ha2).
    cbn [append]. rewrite ReadRune_lead by arith.
    rewrite (DecodeRune_3 a0 a1 a2 rest (r / 4096) ((r / 64) mod 64) (r mod 64))
      by (assumption || arith).
    cbn [skip]. do 2 f_equal. arith.
  - destruct (EncodeRune_4 r H4) as (a0 & a1 & a2 & a3 & -> & Ha0 & Ha1 & Ha2 & Ha3).
    cbn [append]. rewrite ReadRune_lead by arith.
    rewrite (DecodeRune_4 a0 a1 a2 a3 rest (r / 262144) ((r / 4096) mod 64)
               ((r / 64) mod 64) (r mod 64)) by (assumption || arith).
    cbn [skip]. do 2 f_equal. arith.
Qed.

Lemma not_separator_byte (a : byte) :
  byte_val a <> 32 -> byte_val a <> 58 ->
  (Ascii.eqb a " " || Ascii.eqb a ":") = false.
Proof.
  intros H32 H58. apply orb_false_intro; apply Ascii.eqb_neq; intros ->;
    [apply H32|apply H58]; reflexivity.
Qed.

(** The encoding of a rune of running text does not start with a
    separator. *)
Lemma text_rune_readSeparator (r : rune) (rest : string) :
  text_rune r = true -> readSeparator (utf8.EncodeRune r ++ rest) = false.
Proof.
  unfold text_rune. intros H.
  apply andb_prop in H as [H H58]. apply andb_prop in H as [Hs H32].
  apply negb_true_iff, Z.eqb_neq in H32, H58.
  apply scalar_range in Hs as [Hr Hsur].
  assert (Hcases : r <= 0x7F \/ 0x80 <= r <= 0x7FF \/ 0x800 <= r <= 0xFFFF
                   \/ 0x10000 <= r <= 0x10FFFF) by lia.
  destruct Hcases as [H1|[H2|[H3|H4]]].
  - assert (Hb : byte_val (byte_of r) = r)
      by (rewrite byte_val_of; apply Z.mod_small; lia).
    remember (byte_of r) as a eqn:Ea. clear Ea. subst r.
    rewrite EncodeRune_ascii by lia. now apply not_separator_byte.
  - destruct (EncodeRune_2 r H2) as (a0 & a1 & -> & Ha0 & _).
    apply not_separator_byte; arith.
  - destruct (EncodeRune_3 r H3 Hsur) as (a0 & a1 & a2 & -> & Ha0 & _).
    apply not_separator_byte; arith.
  - destruct (EncodeRune_4 r H4) as (a0 & a1 & a2 & a3 & -> & Ha0 & _).
    apply not_separator_byte; arith.
Qed.

(** ** Token by token *)

Lemma nextToken_space (cv : list string) (fuel : nat) (s : stream) :
  nextToken fuel cv (String " " s) = Some (inl spaceToken, s).
Proof.
  unfold nextToken. rewrite ReadRune_ascii by (vm_compute; reflexivity).
  reflexivity.
Qed.

Lemma plain_head (a : byte) (v : string) :
  plain (String a v) = true ->
  byte_val a < 128 /\ byte_val a <> 32 /\ byte_val a <> 58 /\ plain v = true
  /\ (Ascii.eqb a " " || Ascii.eqb a ":") = false.
Proof.
  cbn [plain]. intros H.
  apply andb_prop in H as [H Hv]. apply andb_prop in H as [Ha Hsep].
  apply Z.ltb_lt in Ha. apply negb_true_iff in Hsep.
  apply orb_false_elim in Hsep as [Hs Hc].
  repeat split; try assumption.
  - intros E. apply Ascii.eqb_neq in Hs. apply Hs.
    rewrite <- (byte_of_val a), E. reflexivity.
  - intros E. apply Ascii.eqb_neq in Hc. apply Hc.
    rewrite <- (byte_of_val a), E. reflexivity.
  - now rewrite Hs, Hc.
Qed.

Lemma plain_readSeparator (a : byte) (v : string) (s : stream) :
  plain (String a v) = true -> readSeparator (String a v ++ s) = false.
Proof.
  intros H. apply plain_head in H as (_ & _ & _ & _ & H). exact H.
Qed.

(** Literal mode runs over plain bytes up to the next separator. *)
Lemma readLiteral_loop_run (s : stream) :
  readSeparator s = true ->
  forall (v value : string) (fuel : nat),
    plain v = true -> (String.length v < fuel)%nat ->
    readLiteral_loop fuel value (v ++ s) = Some (inl (literalToken (value ++ v)), s).
Proof.
  intros Hs v. induction v as [|a v IH]; intros value fuel Hplain Hfuel.
  - destruct fuel; [lia|]. cbn [append readLiteral_loop].
    rewrite Hs, append_empty_r. reflexivity.
  - destruct fuel; [lia|]. cbn [readLiteral_loop].
    rewrite (plain_readSeparator a v s Hplain).
    apply plain_head in Hplain as (Ha & _ & _ & Hv & _).
    cbn [append]. rewrite ReadRune_ascii, EncodeRune_ascii by assumption.
    rewrite IH; [|assumption|simpl in Hfuel; lia].
    rewrite append_assoc. reflexivity.
Qed.

(** Action mode stops at the first candidate that is a verb. *)
Lemma readAction_loop_matches (cv : list string) (z : byte) (s : stream) (t : token) :
  forall (u verb0 : string) (fuel : nat),
    plain (u ++ String z "") = true ->
    never_matches cv verb0 u = true ->
    tokenFromString (verb0 ++ u ++ String z "") cv = Some t ->
    (String.length u < fuel)%nat ->
    readAction_loop fuel cv verb0 (u ++ String z s) = Some (inl t, s).
Proof.
  induction u as [|a u IH]; intros verb0 fuel Hplain Hnever Htok Hfuel.
  - destruct fuel; [lia|]. cbn [append] in *.
    apply plain_head in Hplain as (Hz & _).
    rewrite readAction_loop_step by assumption. rewrite Htok. reflexivity.
  - destruct fuel; [simpl in Hfuel; lia|]. cbn [append] in *.
    cbn [never_matches] in Hnever.
    pose proof Hplain as Hhead.
    apply plain_head in Hhead as (Ha & _ & _ & Hrest & _).
    rewrite readAction_loop_step by assumption.
    destruct (tokenFromString (verb0 ++ String a "") cv); [discriminate|].
    assert (Hsep : readSeparator (u ++ String z s) = false).
    { destruct u as [|a' u]; cbn [append] in *.
      - exact (plain_readSeparator z "" s Hrest).
      - exact (plain_readSeparator a' (u ++ String z "") s Hrest). }
    rewrite Hsep. apply IH; try assumption.
    + rewrite append_assoc. exact Htok.
    + simpl in Hfuel. lia.
Qed.

(** A run of plain bytes in front of a separator is read as one literal. *)
Lemma nextToken_plain_run (cv : list string) (fuel : nat) (v s : string) :
  v <> "" -> plain v = true -> readSeparator s = true ->
  (String.length v <= fuel)%nat ->
  nextToken fuel cv (v ++ s) = Some (inl (literalToken v), s).
Proof.
  intros Hne Hplain Hs Hfuel. destruct v as [|a v]; [contradiction|].
  pose proof Hplain as Hhead.
  apply plain_head in Hhead as (Ha & H32 & H58 & Hv & _).
  unfold nextToken. cbn [append]. rewrite ReadRune_ascii by assumption.
  apply Z.eqb_neq in H32, H58. rewrite H32, H58.
  unfold readLiteral. rewrite EncodeRune_ascii by assumption.
  rewrite (readLiteral_loop_run s Hs v); [reflexivity|assumption|].
  simpl in Hfuel. lia.
Qed.

(** X1.  A space at the head of a format is one space token, followed by the
    tokens of the rest.  So [n] spaces at the head are [n] space tokens (a
    run of spaces is not merged), and a run of plain ASCII bytes with a space
    behind it is the literal of the run, one space token and the tokens of
    what follows the space. *)
Theorem spaces_become_space_tokens :
  (forall (cv : list string) (s : string),
      exists ts,
        tokenize s cv = Some (Returned ts)
        /\ tokenize (String " " s) cv = Some (Returned (spaceToken :: ts)))
  /\ (forall (cv : list string) (n : nat) (s : string),
         exists ts,
           tokenize s cv = Some (Returned ts)
           /\ tokenize (repeat_string " " n ++ s) cv
              = Some (Returned (repeat spaceToken n ++ ts)%list))
  /\ (forall (cv : list string) (v s : string),
         v <> "" -> plain v = true ->
         exists ts,
           tokenize s cv = Some (Returned ts)
           /\ tokenize (v ++ String " " s) cv
              = Some (Returned (literalToken v :: spaceToken :: ts))).
Proof.
  assert (Hone : forall cv s,
             exists ts,
               tokenize s cv = Some (Returned ts)
               /\ tokenize (String " " s) cv = Some (Returned (spaceToken :: ts))).
  { intros cv s.
    apply (tokenize_cons cv (String.length (String " " s))); [lia|].
    apply nextToken_space. }
  split; [exact Hone|]. split.
  - intros cv n s. induction n as [|n IH].
    + destruct (tokenize_returns s cv) as (ts & Hts & _).
      exists ts. split; assumption.
    + destruct IH as (ts & Hts & Hrun).
      destruct (Hone cv (repeat_string " " n ++ s)) as (ts' & Hts' & Hhead).
      rewrite Hrun in Hts'. injection Hts' as <-.
      exists ts. split; [assumption|]. exact Hhead.
  - intros cv v s Hne Hplain.
    destruct (Hone cv s) as (ts & Hts & Hhead).
    destruct (tokenize_cons cv (String.length (v ++ String " " s))
                (v ++ String " " s) (String " " s) (literalToken v))
      as (ts' & Hts' & Hrun).
    + lia.
    + apply nextToken_plain_run; try assumption; [reflexivity|].
      rewrite length_append. lia.
    + rewrite Hhead in Hts'. injection Hts' as <-.
      exists ts. split; assumption.
Qed.

Lemma spaces_become_space_tokens_witness :
  exists ts,
    tokenize ":bar" [] = Some (Returned ts)
    /\ tokenize "done :bar" [] = Some (Returned (literalToken "done" :: spaceToken :: ts)).
Proof.
  apply (proj2 (proj2 spaces_become_space_tokens) [] "done" ":bar");
    [discriminate|reflexivity].
Defined.

Lemma length_EncodeRune (r : rune) : (1 <= String.length (utf8.EncodeRune r))%nat.
Proof.
  pose proof (EncodeRune_nonempty r) as H.
  destruct (utf8.EncodeRune r); [contradiction|simpl; lia].
Qed.

(** Literal mode runs over the runes of running text up to the next
    separator, and writes every rune back as it was. *)
Lemma readLiteral_loop_text (s : stream) :
  readSeparator s = true ->
  forall (rs : list rune) (value : string) (fuel : nat),
    forallb text_rune rs = true ->
    (String.length (string_of_runes rs) < fuel)%nat ->
    readLiteral_loop fuel value (string_of_runes rs ++ s)
    = Some (inl (literalToken (value ++ string_of_runes rs)), s).
Proof.
  intros Hs rs. induction rs as [|r rs IH]; intros value fuel Htext Hfuel.
  - destruct fuel; [lia|]. cbn [string_of_runes append readLiteral_loop].
    rewrite Hs, append_empty_r. reflexivity.
  - destruct fuel; [lia|]. cbn [forallb] in Htext.
    apply andb_prop in Htext as [Hr Hrs].
    cbn [string_of_runes readLiteral_loop] in *. rewrite append_assoc.
    rewrite (text_rune_readSeparator r _ Hr).
    assert (Hsc : scalar r = true).
    { unfold text_rune in Hr. apply andb_prop in Hr as [Hr _].
      now apply andb_prop in Hr as [Hr _]. }
    rewrite (ReadRune_EncodeRune r _ Hsc).
    rewrite IH; [now rewrite append_assoc|assumption|].
    rewrite length_append in Hfuel. pose proof (length_EncodeRune r). lia.
Qed.

(** X2.  Running text is one literal.  A run of plain ASCII bytes (no space,
    no trigger) that ends at a separator or at the end of the format is one
    literal with exactly those bytes, followed by the tokens of the rest; a
    verb name written without the trigger is such a run.  The same holds for
    the UTF-8 encoding of any runes of running text: no character of several
    bytes is split or changed. *)
Theorem literal_run_is_a_token :
  (forall (cv : list string) (v s : string),
      v <> "" -> plain v = true -> readSeparator s = true ->
      exists ts,
        tokenize s cv = Some (Returned ts)
        /\ tokenize (v ++ s) cv = Some (Returned (literalToken v :: ts)))
  /\ (forall (cv : list string) (rs : list rune) (s : string),
         rs <> [] -> forallb text_rune rs = true -> readSeparator s = true ->
         exists ts,
           tokenize s cv = Some (Returned ts)
           /\ tokenize (string_of_runes rs ++ s) cv
              = Some (Returned (literalToken (string_of_runes rs) :: ts))).
Proof.
  split.
  - intros cv v s Hne Hplain Hs. destruct v as [|a v]; [contradiction|].
    apply (tokenize_cons cv (String.length (String a v ++ s))); [lia|].
    pose proof Hplain as Hhead.
    apply plain_head in Hhead as (Ha & H32 & H58 & Hv & _).
    unfold nextToken. cbn [append]. rewrite ReadRune_ascii by assumption.
    apply Z.eqb_neq in H32, H58. rewrite H32, H58.
    unfold readLiteral. rewrite EncodeRune_ascii by assumption.
    rewrite (readLiteral_loop_run s Hs v); [reflexivity|assumption|].
    cbn [String.length]. rewrite length_append. lia.
  - intros cv rs s Hne Htext Hs. destruct rs as [|r rs]; [contradiction|].
    apply (tokenize_cons cv (String.length (string_of_runes (r :: rs) ++ s))); [lia|].
    cbn [forallb] in Htext. apply andb_prop in Htext as [Hr Hrs].
    pose proof Hr as Hr'. unfold text_rune in Hr'.
    apply andb_prop in Hr' as [Hr' H58]. apply andb_prop in Hr' as [Hsc H32].
    apply negb_true_iff in H32, H58.
    unfold nextToken. cbn [string_of_runes]. rewrite append_assoc.
    rewrite (ReadRune_EncodeRune r _ Hsc), H32, H58.
    unfold readLiteral.
    rewrite (readLiteral_loop_text s Hs rs); [reflexivity|assumption|].
    rewrite !length_append. pose proof (length_EncodeRune r). lia.
Qed.

Lemma nextToken_trigger (cv : list string) (fuel : nat) (s : stream) :
  nextToken fuel cv (String ":" s) = readAction_loop fuel cv "" s.
Proof.
  unfold nextToken. rewrite ReadRune_ascii by (vm_compute; reflexivity).
  reflexivity.
Qed.

Lemma nextToken_verb (cv : list string) (u : string) (z : byte) (s : stream)
  (t : token) (fuel : nat) :
  candidate (u ++ String z "") = true ->
  never_matches cv "" u = true ->
  tokenFromString (u ++ String z "") cv = Some t ->
  (String.length u < fuel)%nat ->
  nextToken fuel cv (String ":" (u ++ String z s)) = Some (inl t, s).
Proof.
  intros Hcand Hnever Htok Hfuel. rewrite nextToken_trigger.
  destruct u as [|a u]; cbn [append candidate] in *.
  - apply andb_prop in Hcand as [Hz _]. apply Z.ltb_lt in Hz.
    destruct fuel; [lia|].
    rewrite readAction_loop_step by assumption. cbn [append].
    rewrite Htok. reflexivity.
  - apply andb_prop in Hcand as [Ha Hplain]. apply Z.ltb_lt in Ha.
    destruct fuel; [lia|].
    rewrite readAction_loop_step by assumption.
    cbn [never_matches append] in Hnever |- *.
    destruct (tokenFromString (String a "") cv); [discriminate|].
    assert (Hsep : readSeparator (u ++ String z s) = false).
    { destruct u as [|a' u]; cbn [append] in *.
      - exact (plain_readSeparator z "" s Hplain).
      - exact (plain_readSeparator a' (u ++ String z "") s Hplain). }
    rewrite Hsep.
    apply readAction_loop_matches; try assumption.
    simpl in Hfuel. lia.
Qed.

(** X3.  Action mode matches eagerly.  When the bytes after a trigger are an
    ASCII candidate (any first byte, then no separator) whose proper prefixes
    are no verb and which itself is a verb, the verb's token is emitted at
    once and scanning goes on right behind the verb name, separator or not.
    So a standard verb is found in front of any text ([":barn"] is the bar
    and the literal ["n"]) unless a proper prefix of its name is registered
    as a custom verb. *)
Theorem verb_is_matched_eagerly :
  (forall (cv : list string) (u : string) (z : byte) (t : token) (s : string),
      candidate (u ++ String z "") = true ->
      never_matches cv "" u = true ->
      tokenFromString (u ++ String z "") cv = Some t ->
      exists ts,
        tokenize s cv = Some (Returned ts)
        /\ tokenize (":" ++ u ++ String z s) cv = Some (Returned (t :: ts)))
  /\ (forall (cv : list string) (s : string),
         never_matches cv "" "ba" = true ->
         exists ts,
           tokenize s cv = Some (Returned ts)
           /\ tokenize (":bar" ++ s) cv = Some (Returned (barToken :: ts)))
  /\ (forall (cv : list string) (s : string),
         never_matches cv "" "percen" = true ->
         exists ts,
           tokenize s cv = Some (Returned ts)
           /\ tokenize (":percent" ++ s) cv = Some (Returned (percentToken :: ts)))
  /\ (forall (cv : list string) (s : string),
         never_matches cv "" "rat" = true ->
         exists ts,
           tokenize s cv = Some (Returned ts)
           /\ tokenize (":rate" ++ s) cv = Some (Returned (rateToken :: ts)))
  /\ (forall (cv : list string) (s : string),
         never_matches cv "" "et" = true ->
         exists ts,
           tokenize s cv = Some (Returned ts)
           /\ tokenize (":eta" ++ s) cv = Some (Returned (etaToken :: ts))).
Proof.
  assert (Hgen : forall cv u z t s,
             candidate (u ++ String z "") = true ->
             never_matches cv "" u = true ->
             tokenFromString (u ++ String z "") cv = Some t ->
             exists ts,
               tokenize s cv = Some (Returned ts)
               /\ tokenize (":" ++ u ++ String z s) cv = Some (Returned (t :: ts))).
  { intros cv u z t s Hcand Hnever Htok.
    apply (tokenize_cons cv (String.length (":" ++ u ++ String z s))); [lia|].
    cbn [append]. apply nextToken_verb; try assumption.
    cbn [String.length]. rewrite length_append. lia. }
  split; [exact Hgen|].
  repeat split; intros cv s Hnever.
  - exact (Hgen cv "ba" "r"%char barToken s eq_refl Hnever eq_refl).
  - exact (Hgen cv "percen" "t"%char percentToken s eq_refl Hnever eq_refl).
  - exact (Hgen cv "rat" "e"%char rateToken s eq_refl Hnever eq_refl).
  - exact (Hgen cv "et" "a"%char etaToken s eq_refl Hnever eq_refl).
Qed.

Lemma verb_is_matched_eagerly_witness :
  (exists ts,
      tokenize "n :eta" ["foo"] = Some (Returned ts)
      /\ tokenize ":barn :eta" ["foo"] = Some (Returned (barToken :: ts)))
  /\ (exists ts,
         tokenize "d" ["foo"; "food"] = Some (Returned ts)
         /\ tokenize ":food" ["foo"; "food"]
            = Some (Returned (customVerbToken "foo" :: ts))).
Proof.
  split.
  - exact (proj1 (proj2 verb_is_matched_eagerly) ["foo"] "n :eta" eq_refl).
  - exact (proj1 verb_is_matched_eagerly ["foo"; "food"] "fo" "o"%char
             (customVerbToken "foo") "d" eq_refl eq_refl eq_refl).
Defined.

(** X4.  An unresolved action inside a format.  When the bytes between a
    trigger and the next separator (or the end) are an ASCII candidate none of
    whose prefixes is a verb, they become one literal that starts with the
    trigger, followed by the tokens of the rest.  The first byte after the
    trigger is never taken as a separator: a space or a second trigger there
    is part of the literal. *)
Theorem unresolved_action_in_context (cv : list string) (v s : string) :
  candidate v = true -> never_matches cv "" v = true -> readSeparator s = true ->
  exists ts,
    tokenize s cv = Some (Returned ts)
    /\ tokenize (":" ++ v ++ s) cv = Some (Returned (literalToken (":" ++ v) :: ts)).
Proof.
  intros Hcand Hnever Hs.
  apply (tokenize_cons cv (String.length (":" ++ v ++ s))); [lia|].
  cbn [append]. rewrite nextToken_trigger.
  destruct v as [|a v]; [discriminate|]. cbn [candidate] in Hcand.
  apply andb_prop in Hcand as [Ha Hplain]. apply Z.ltb_lt in Ha.
  cbn [append String.length]. rewrite readAction_loop_step by assumption.
  cbn [never_matches append] in Hnever |- *.
  destruct (tokenFromString (String a "") cv); [discriminate|].
  destruct v as [|a' v].
  - cbn [append]. rewrite Hs. reflexivity.
  - rewrite (plain_readSeparator a' v s Hplain).
    rewrite (readAction_loop_demotes cv s Hs (String a' v) (String a ""));
      try assumption; [reflexivity|discriminate|].
    rewrite length_append. lia.
Qed.

Lemma unresolved_action_in_context_witness :
  (exists ts,
      tokenize " :bar" [] = Some (Returned ts)
      /\ tokenize ": x :bar" [] = Some (Returned (literalToken ": x" :: ts)))
  /\ (exists ts,
         tokenize ":eta" ["foo"] = Some (Returned ts)
         /\ tokenize "::fo:eta" ["foo"]
            = Some (Returned (literalToken "::fo" :: ts))).
Proof.
  split.
  - exact (unresolved_action_in_context [] " x" " :bar" eq_refl eq_refl eq_refl).
  - exact (unresolved_action_in_context ["foo"] ":fo" ":eta" eq_refl eq_refl eq_refl).
Defined.

Lemma literal_run_is_a_token_witness :
  (exists ts,
      tokenize " :bar" [] = Some (Returned ts)
      /\ tokenize "bar :bar" [] = Some (Returned (literalToken "bar" :: ts)))
  /\ (exists ts,
         tokenize " :bar" [] = Some (Returned ts)
         /\ tokenize (string_of_runes [0xE9; 0x20AC; 0x1F600] ++ " :bar") []
            = Some (Returned
                      (literalToken (string_of_runes [0xE9; 0x20AC; 0x1F600]) :: ts))).
Proof.
  split.
  - apply (proj1 literal_run_is_a_token [] "bar" " :bar");
      [discriminate|reflexivity|reflexivity].
  - apply (proj2 literal_run_is_a_token [] [0xE9; 0x20AC; 0x1F600] " :bar");
      [discriminate|reflexivity|reflexivity].
Defined.

(** ** Induction on a scan *)

(** What [tokenize] returns can be read off token by token: a relation
    between formats and token sequences that holds at the end of a scan and
    is kept by every token holds of [tokenize]. *)
Lemma tokenize_ind (cv : list string) (R : string -> tokens -> Prop) :
  (forall s s' fuel err,
      (String.length s <= fuel)%nat ->
      nextToken fuel cv s = Some (inr err, s') -> R s []) ->
  (forall s s' fuel t ts,
      (String.length s <= fuel)%nat ->
      nextToken fuel cv s = Some (inl t, s') ->
      tokenize s' cv = Some (Returned ts) -> R s' ts -> R s (t :: ts)) ->
  forall f, exists ts, tokenize f cv = Some (Returned ts) /\ R f ts.
Proof.
  intros Hend Hstep.
  assert (H : forall n f, (String.length f <= n)%nat ->
                exists ts, tokenize f cv = Some (Returned ts) /\ R f ts).
  { induction n as [|n IH]; intros f Hlen.
    - destruct f; [|simpl in Hlen; lia].
      exists []. split; [reflexivity|].
      apply (Hend "" "" O io_EOF); [simpl; lia|reflexivity].
    - destruct (nextToken_spec cv (String.length f) f ltac:(lia))
        as ([[t|err] s'] & Heq & Hout); simpl in Hout.
      + destruct Hout as [Hshort _].
        destruct (IH s' ltac:(lia)) as (ts & Hts & HR).
        destruct (tokenize_cons cv _ f s' t (le_n _) Heq) as (ts' & Hts' & Hf).
        rewrite Hts in Hts'. injection Hts' as <-.
        exists (t :: ts). split; [assumption|].
        exact (Hstep f s' _ t ts (le_n _) Heq Hts HR).
      + exists []. split.
        * exact (tokenize_end cv _ f s' err (le_n _) Heq).
        * exact (Hend f s' _ err (le_n _) Heq). }
  intros f. exact (H (String.length f) f (le_n _)).
Qed.

(** ** What a token stands for *)

Lemma tokenFromString_source (s : string) (cv : list string) (t : token) :
  tokenFromString s cv = Some t -> source_text t = ":" ++ s.
Proof.
  unfold tokenFromString.
  destruct (String.eqb_spec s "bar") as [->|_]; [intros H; now injection H as <-|].
  destruct (String.eqb_spec s "percent") as [->|_]; [intros H; now injection H as <-|].
  destruct (String.eqb_spec s "rate") as [->|_]; [intros H; now injection H as <-|].
  destruct (String.eqb_spec s "eta") as [->|_]; [intros H; now injection H as <-|].
  intros H. apply customVerbFromString_Some in H as [-> _]. reflexivity.
Qed.

Lemma transcode_step (s s' : stream) (r : rune) :
  ReadRune s = inl (r, s') -> transcode s = utf8.EncodeRune r ++ transcode s'.
Proof.
  intros Hread. unfold transcode, runes.
  destruct s as [|a rest]; [discriminate|].
  cbn [String.length runes_loop]. rewrite Hread. cbn [string_of_runes].
  apply ReadRune_spec in Hread as [Hlen _]. cbn [String.length] in Hlen.
  rewrite (runes_loop_enough (String.length rest) s') by lia. reflexivity.
Qed.

Lemma transcode_ascii (f : string) : ascii_only f = true -> transcode f = f.
Proof.
  induction f as [|a f IH]; intros Hf; [reflexivity|].
  cbn [ascii_only] in Hf. apply andb_prop in Hf as [Ha Hf]. apply Z.ltb_lt in Ha.
  rewrite (transcode_step _ _ _ (ReadRune_ascii a f Ha)).
  rewrite EncodeRune_ascii by assumption. cbn [append]. now rewrite IH.
Qed.

Lemma readLiteral_loop_transcode (fuel : nat) :
  forall (value : string) (s : stream),
    (String.length s < fuel)%nat ->
    exists more s',
      readLiteral_loop fuel value s = Some (inl (literalToken (value ++ more)), s')
      /\ transcode s = more ++ transcode s'.
Proof.
  induction fuel as [|fuel IH]; intros value s Hfuel; [lia|].
  cbn [readLiteral_loop].
  destruct (readSeparator s) eqn:Hsep.
  - exists "", s. rewrite append_empty_r. auto.
  - destruct (readSeparator_false s Hsep) as (r & s' & Hread).
    rewrite Hread. rewrite (transcode_step _ _ _ Hread).
    apply ReadRune_spec in Hread as [Hlen _].
    destruct (IH (value ++ utf8.EncodeRune r) s' ltac:(lia)) as (more & s'' & Heq & Ht).
    exists (utf8.EncodeRune r ++ more), s''.
    rewrite Heq, Ht, !append_assoc. split; reflexivity.
Qed.

Lemma readAction_loop_transcode (cv : list string) (fuel : nat) :
  forall (verb0 : string) (s : stream),
    s <> "" -> (String.length s < fuel)%nat ->
    exists t s' more,
      readAction_loop fuel cv verb0 s = Some (inl t, s')
      /\ source_text t = ":" ++ verb0 ++ more
      /\ more <> ""
      /\ transcode s = more ++ transcode s'.
Proof.
  induction fuel as [|fuel IH]; intros verb0 s Hne Hfuel; [lia|].
  cbn [readAction_loop].
  destruct (ReadRune s) as [[r s1]|err] eqn:Hread.
  - rewrite (transcode_step _ _ _ Hread).
    apply ReadRune_spec in Hread as [Hlen _].
    destruct (tokenFromString (verb0 ++ utf8.EncodeRune r) cv) as [t|] eqn:Htok.
    + exists t, s1, (utf8.EncodeRune r).
      split; [reflexivity|]. split; [exact (tokenFromString_source _ _ _ Htok)|].
      split; [apply EncodeRune_nonempty|reflexivity].
    + destruct (readSeparator s1) eqn:Hsep.
      * exists (literalToken (":" ++ verb0 ++ utf8.EncodeRune r)), s1, (utf8.EncodeRune r).
        split; [reflexivity|]. split; [reflexivity|].
        split; [apply EncodeRune_nonempty|reflexivity].
      * assert (Hne1 : s1 <> "") by (intros ->; discriminate).
        destruct (IH (verb0 ++ utf8.EncodeRune r) s1 Hne1 ltac:(lia))
          as (t & s' & more & Heq & Hsrc & _ & Ht).
        exists t, s', (utf8.EncodeRune r ++ more).
        split; [assumption|]. rewrite Hsrc, Ht, !append_assoc.
        split; [reflexivity|].
        split; [|reflexivity].
        intros E. destruct (utf8.EncodeRune r) eqn:Er; [|discriminate].
        exact (EncodeRune_nonempty r Er).
  - apply ReadRune_error in Hread as [-> _]. contradiction.
Qed.

(** What one call of [nextToken] does to the format. *)
Lemma nextToken_shape (cv : list string) (fuel : nat) (s : stream) :
  (String.length s <= fuel)%nat ->
  match nextToken fuel cv s with
  | Some (inl t, s') =>
      transcode s = source_text t ++ transcode s'
      /\ match t with
         | customVerbToken v => v <> ""
         | literalToken c => c <> ""
         | _ => True
         end
  | Some (inr _, _) => transcode s = "" \/ transcode s = ":"
  | None => False
  end.
Proof.
  intros Hfuel. unfold nextToken.
  destruct (ReadRune s) as [[r s1]|err] eqn:Hread.
  - rewrite (transcode_step _ _ _ Hread).
    apply ReadRune_spec in Hread as [Hlen _].
    destruct (Z.eqb_spec r 32) as [->|_]; [split; [reflexivity|exact I]|].
    destruct (Z.eqb_spec r 58) as [->|_].
    + unfold readAction. destruct s1 as [|a1 s1].
      * destruct fuel; [simpl in Hlen; lia|]. cbn. now right.
      * destruct (readAction_loop_transcode cv fuel "" (String a1 s1)
                    ltac:(discriminate) ltac:(lia))
          as (t & s' & more & Heq & Hsrc & Hmore & Ht).
        rewrite Heq, Ht. cbn [append] in Hsrc. split.
        -- rewrite Hsrc. change (utf8.EncodeRune 58) with ":".
           reflexivity.
        -- destruct t; try exact I.
           ++ cbn [source_text append] in Hsrc. injection Hsrc as ->. assumption.
           ++ cbn [source_text] in Hsrc. rewrite Hsrc. discriminate.
    + unfold readLiteral.
      destruct (readLiteral_loop_transcode fuel (utf8.EncodeRune r) s1 ltac:(lia))
        as (more & s' & Heq & Ht).
      rewrite Heq, Ht. cbn [source_text]. split.
      * now rewrite append_assoc.
      * intros E. destruct (utf8.EncodeRune r) eqn:Er; [|discriminate].
        exact (EncodeRune_nonempty r Er).
  - apply ReadRune_error in Hread as [-> _]. now left.
Qed.

Lemma tokenize_spells (f : string) (cv : list string) :
  exists ts,
    tokenize f cv = Some (Returned ts)
    /\ (source_texts ts = transcode f \/ source_texts ts ++ ":" = transcode f).
Proof.
  apply (tokenize_ind cv
           (fun s ts => source_texts ts = transcode s
                        \/ source_texts ts ++ ":" = transcode s)).
  - intros s s' fuel err Hfuel Hnext.
    pose proof (nextToken_shape cv fuel s Hfuel) as Hshape.
    rewrite Hnext in Hshape. destruct Hshape as [E|E]; rewrite E; [now left|now right].
  - intros s s' fuel t ts Hfuel Hnext _ HR.
    pose proof (nextToken_shape cv fuel s Hfuel) as Hshape.
    rewrite Hnext in Hshape. destruct Hshape as [E _]. rewrite E.
    cbn [source_texts]. destruct HR as [<-|<-]; [now left|right].
    now rewrite append_assoc.
Qed.

(** X5.  Nothing of a format is lost or invented, but for one case: the
    texts the tokens stand for, put end to end, are the format as the scanner
    reads it, or the format without a final lone trigger.  For an ASCII
    format that is the format itself, byte for byte. *)
Theorem tokens_spell_the_format :
  (forall (f : string) (cv : list string),
      exists ts,
        tokenize f cv = Some (Returned ts)
        /\ (source_texts ts = transcode f \/ source_texts ts ++ ":" = transcode f))
  /\ (forall f : string, ascii_only f = true -> transcode f = f).
Proof.
  split; [exact tokenize_spells|exact transcode_ascii].
Qed.

Lemma tokens_spell_the_format_witness :
  transcode "a :bar x: " = "a :bar x: ".
Proof.
  exact (proj2 tokens_spell_the_format "a :bar x: " eq_refl).
Defined.

Lemma runes_step (s s' : stream) (r : rune) :
  ReadRune s = inl (r, s') -> runes s = r :: runes s'.
Proof.
  intros Hread. unfold runes.
  destruct s as [|a rest]; [discriminate|].
  cbn [String.length runes_loop]. rewrite Hread.
  apply ReadRune_spec in Hread as [Hlen _]. cbn [String.length] in Hlen.
  rewrite (runes_loop_enough (String.length rest) s') by lia. reflexivity.
Qed.

Lemma runes_string_of_runes (rs : list rune) :
  forallb scalar rs = true -> runes (string_of_runes rs) = rs.
Proof.
  induction rs as [|r rs IH]; intros Hrs; [reflexivity|].
  cbn [forallb] in Hrs. apply andb_prop in Hrs as [Hr Hrs].
  cbn [string_of_runes].
  rewrite (runes_step _ _ _ (ReadRune_EncodeRune r (string_of_runes rs) Hr)).
  now rewrite IH.
Qed.

(** X13.  Reading and writing runes are inverse on well-formed text.  For
    every Unicode scalar value, reading the bytes that were written for it
    gives the rune back and leaves what follows untouched; so text encoded
    from scalar values is read as exactly those runes and is written back
    byte for byte, and its tokens spell it exactly, up to a final lone
    trigger. *)
Theorem utf8_text_is_kept :
  (forall (r : rune) (rest : string),
      scalar r = true -> ReadRune (utf8.EncodeRune r ++ rest) = inl (r, rest))
  /\ (forall rs : list rune,
         forallb scalar rs = true ->
         runes (string_of_runes rs) = rs
         /\ transcode (string_of_runes rs) = string_of_runes rs)
  /\ (forall (rs : list rune) (cv : list string),
         forallb scalar rs = true ->
         exists ts,
           tokenize (string_of_runes rs) cv = Some (Returned ts)
           /\ (source_texts ts = string_of_runes rs
               \/ source_texts ts ++ ":" = string_of_runes rs)).
Proof.
  assert (Hback : forall rs, forallb scalar rs = true ->
                    transcode (string_of_runes rs) = string_of_runes rs).
  { intros rs Hrs. unfold transcode. now rewrite runes_string_of_runes. }
  split; [exact ReadRune_EncodeRune|]. split.
  - intros rs Hrs. split; [now apply runes_string_of_runes|now apply Hback].
  - intros rs cv Hrs.
    destruct (tokenize_spells (string_of_runes rs) cv) as (ts & Hts & Hspell).
    rewrite (Hback rs Hrs) in Hspell. exists ts. split; assumption.
Qed.

Lemma utf8_text_is_kept_witness :
  ReadRune (utf8.EncodeRune 0x1F600 ++ " :bar") = inl (0x1F600, " :bar")
  /\ (runes (string_of_runes [0x3A; 0xE9; 0x20AC; 0x20; 0x1F600])
      = [0x3A; 0xE9; 0x20AC; 0x20; 0x1F600]
      /\ transcode (string_of_runes [0x3A; 0xE9; 0x20AC; 0x20; 0x1F600])
         = string_of_runes [0x3A; 0xE9; 0x20AC; 0x20; 0x1F600]).
Proof.
  split.
  - exact (proj1 utf8_text_is_kept 0x1F600 " :bar" eq_refl).
  - exact (proj1 (proj2 utf8_text_is_kept) [0x3A; 0xE9; 0x20AC; 0x20; 0x1F600] eq_refl).
Defined.

(** X6.  Every token uses up at least one byte of the format: a format of
    [n] bytes has at most [n] tokens. *)
Theorem at_most_one_token_per_byte (f : string) (cv : list string) :
  exists ts,
    tokenize f cv = Some (Returned ts)
    /\ (List.length ts <= String.length f)%nat.
Proof.
  apply (tokenize_ind cv (fun s ts => (List.length ts <= String.length s)%nat)).
  - intros; simpl; lia.
  - intros s s' fuel t ts Hfuel Hnext _ HR.
    destruct (nextToken_spec cv fuel s Hfuel) as (out & Heq & Hout).
    rewrite Hnext in Heq. injection Heq as <-. destruct Hout as [Hlen _].
    simpl. lia.
Qed.

(** X7.  In every token sequence [tokenize] returns, a custom verb token
    carries a name of the registered list that is not empty and is no
    standard verb name, and no literal is empty. *)
Theorem emitted_tokens_are_wellformed (f : string) (cv : list string) :
  exists ts,
    tokenize f cv = Some (Returned ts) /\ Forall (wellformed cv) ts.
Proof.
  apply (tokenize_ind cv (fun _ ts => Forall (wellformed cv) ts)).
  - intros. constructor.
  - intros s s' fuel t ts Hfuel Hnext _ HR.
    constructor; [|assumption].
    pose proof (nextToken_shape cv fuel s Hfuel) as Hshape.
    rewrite Hnext in Hshape. destruct Hshape as [_ Hne].
    destruct (nextToken_spec cv fuel s Hfuel) as (out & Heq & Hout).
    rewrite Hnext in Heq. injection Heq as <-. destruct Hout as [_ Hscan].
    destruct t; simpl in *; tauto.
Qed.

(** ** Formats without a trigger *)

Lemma no_trigger_append (x y : string) :
  no_trigger (x ++ y) = no_trigger x && no_trigger y.
Proof.
  induction x as [|a x IH]; [reflexivity|].
  cbn [append no_trigger]. rewrite IH. now rewrite andb_assoc.
Qed.

Lemma no_trigger_is_text (t : token) (rest : string) :
  no_trigger (source_text t ++ rest) = true -> is_text t = true.
Proof.
  destruct t; try reflexivity; cbn; discriminate.
Qed.

Lemma tokenize_text_only (f : string) (cv : list string) :
  exists ts,
    tokenize f cv = Some (Returned ts)
    /\ (no_trigger (transcode f) = true -> Forall (fun t => is_text t = true) ts).
Proof.
  apply (tokenize_ind cv
           (fun s ts => no_trigger (transcode s) = true ->
                        Forall (fun t => is_text t = true) ts)).
  - intros. constructor.
  - intros s s' fuel t ts Hfuel Hnext _ HR Hno.
    pose proof (nextToken_shape cv fuel s Hfuel) as Hshape.
    rewrite Hnext in Hshape. destruct Hshape as [E _]. rewrite E in Hno.
    constructor.
    + exact (no_trigger_is_text t _ Hno).
    + apply HR. rewrite no_trigger_append in Hno.
      now apply andb_prop in Hno as [_ Hno].
Qed.

(** X8.  A format without a trigger holds no verb.  When the format is
    read back as written (it is ASCII, or any well-formed UTF-8) and holds no
    trigger byte, its tokens are spaces and literals only, they spell the
    format byte for byte, and each prints its own text, whatever the state
    and the custom verbs, writing nothing to the error stream. *)
Theorem plain_format_prints_itself (f : string) (cv : list string) (b : Bar) :
  transcode f = f -> no_trigger f = true ->
  exists ts,
    tokenize f cv = Some (Returned ts)
    /\ source_texts ts = f
    /\ Forall (fun t => is_text t = true /\ print t b = (Ok (source_text t), [])) ts.
Proof.
  intros Hwell Hno.
  destruct (tokenize_spells f cv) as (ts & Hts & Hspell).
  destruct (tokenize_text_only f cv) as (ts' & Hts' & Htext).
  rewrite Hts in Hts'. injection Hts' as <-.
  rewrite Hwell in Hspell, Htext.
  exists ts. split; [assumption|]. split.
  - destruct Hspell as [E|E]; [assumption|].
    rewrite <- E, no_trigger_append in Hno.
    apply andb_prop in Hno as [_ Hno]. discriminate.
  - specialize (Htext Hno). rewrite Forall_forall in Htext |- *.
    intros t Hin. specialize (Htext t Hin).
    destruct t; try discriminate; split; reflexivity.
Qed.

Lemma plain_format_prints_itself_witness :
  exists ts,
    tokenize "50 of 100 bar" ["of"] = Some (Returned ts)
    /\ source_texts ts = "50 of 100 bar"
    /\ Forall (fun t => is_text t = true
                        /\ print t (sample 10 0.5 []) = (Ok (source_text t), [])) ts.
Proof.
  exact (plain_format_prints_itself "50 of 100 bar" ["of"] (sample 10 0.5 [])
           eq_refl eq_refl).
Defined.

(** ** Verb lookup *)

Lemma standard_tokenFromString (s : string) (cv : list string) :
  standard s = true ->
  tokenFromString s cv = tokenFromString s [] /\ tokenFromString s [] <> None.
Proof.
  unfold standard, tokenFromString. intros H.
  destruct (String.eqb s "bar"); [split; [reflexivity|discriminate]|].
  destruct (String.eqb s "percent"); [split; [reflexivity|discriminate]|].
  destruct (String.eqb s "rate"); [split; [reflexivity|discriminate]|].
  destruct (String.eqb s "eta"); [split; [reflexivity|discriminate]|].
  discriminate.
Qed.

(** X9.  [tokenFromString] finds no token exactly for the strings that are
    neither a standard verb name nor in the list of custom verbs; a listed
    string that is no standard name gives the custom verb token of that very
    string, however often and wherever it is listed; a standard name gives
    the same token under every list. *)
Theorem tokenFromString_lookup (s : string) (cv : list string) :
  (tokenFromString s cv = None <-> standard s = false /\ ~ In s cv)
  /\ (standard s = false -> In s cv ->
      tokenFromString s cv = Some (customVerbToken s))
  /\ (standard s = true ->
      tokenFromString s cv = tokenFromString s [] /\ tokenFromString s [] <> None).
Proof.
  split; [|split].
  - split.
    + intros Hnone. destruct (standard s) eqn:Hstd.
      * destruct (standard_tokenFromString s cv Hstd) as [E Hsome].
        rewrite E in Hnone. contradiction.
      * split; [reflexivity|]. intros Hin.
        unfold standard in Hstd. unfold tokenFromString in Hnone.
        destruct (String.eqb s "bar"); [discriminate|].
        destruct (String.eqb s "percent"); [discriminate|].
        destruct (String.eqb s "rate"); [discriminate|].
        destruct (String.eqb s "eta"); [discriminate|].
        rewrite (customVerbFromString_In s cv Hin) in Hnone. discriminate.
    + intros [Hstd Hin]. now apply tokenFromString_unregistered.
  - intros Hstd Hin. unfold standard in Hstd. unfold tokenFromString.
    destruct (String.eqb s "bar"); [discriminate|].
    destruct (String.eqb s "percent"); [discriminate|].
    destruct (String.eqb s "rate"); [discriminate|].
    destruct (String.eqb s "eta"); [discriminate|].
    now apply customVerbFromString_In.
  - apply standard_tokenFromString.
Qed.

Lemma tokenFromString_lookup_witness :
  tokenFromString "foo" ["bar"; "foo"; "foo"] = Some (customVerbToken "foo")
  /\ tokenFromString "bar" ["bar"; "foo"] = tokenFromString "bar" [].
Proof.
  split.
  - apply (proj1 (proj2 (tokenFromString_lookup "foo" ["bar"; "foo"; "foo"])));
      [reflexivity|simpl; auto].
  - apply (proj2 (proj2 (tokenFromString_lookup "bar" ["bar"; "foo"]))).
    reflexivity.
Defined.

(** ** The length of the bar *)

Lemma length_repeat_string (s : string) (n : nat) :
  String.length (repeat_string s n) = (n * String.length s)%nat.
Proof.
  induction n as [|n IH]; [reflexivity|].
  cbn [repeat_string]. rewrite length_append, IH. simpl. lia.
Qed.

(** X10.  The bar in numbers.  With [p] the integer part of the fraction
    times the width, between zero and a width of up to 65535 columns, and
    with fill and head glyphs of one common length, the bar is as long as
    its caps and [width] glyphs when [p] is at least one, and as its caps and
    [width + 1] glyphs when [p] is zero. *)
Theorem bar_length (b : Bar) (p : Z) (g : nat) :
  p = int_of_float64 (prog b * float64_of_int (width b))%float ->
  0 <= p <= width b -> width b <= 65535 ->
  String.length (complete b) = g ->
  String.length (head b) = g ->
  String.length (incomplete b) = g ->
  exists out,
    print barToken b = (Ok out, [])
    /\ String.length out
       = (String.length (start b)
          + (if (p =? 0)%Z then S (Z.to_nat (width b)) else Z.to_nat (width b)) * g
          + String.length (end_ b))%nat.
Proof.
  intros Hp Hrange Hwidth Hc Hh Hi. cbn [print].
  rewrite (print_barToken_formula b p Hp Hrange Hwidth).
  eexists. split; [reflexivity|].
  rewrite !length_append, !length_repeat_string, Hc, Hh, Hi.
  destruct (Z.eqb_spec p 0) as [->|Hne].
  - replace (Z.to_nat (Z.max 0 (0 - 1))) with O by lia.
    replace (Z.to_nat (width b - 0)) with (Z.to_nat (width b)) by (f_equal; lia).
    simpl. lia.
  - replace (Z.to_nat (width b))
      with (Z.to_nat (Z.max 0 (p - 1)) + 1 + Z.to_nat (width b - p))%nat by lia.
    lia.
Qed.

Lemma bar_length_witness :
  exists out,
    print barToken (sample 40 0.5 []) = (Ok out, [])
    /\ String.length out = 42%nat.
Proof.
  apply (bar_length (sample 40 0.5 []) 20 1);
    [vm_compute; reflexivity | simpl; lia | simpl; lia
     | reflexivity | reflexivity | reflexivity].
Defined.



(** ** Debugging output *)

(** X12.  A debug never panics, not even for the bar in a state where its
    print does, and it writes to the error stream exactly what the print of
    the same token writes.  For a custom verb without an entry in the context
    the tag shows the verb name as its own value, and the diagnostic is
    written. *)
Theorem debug_never_panics :
  (forall (t : token) (b : Bar),
      exists text, debug t b = (Ok text, snd (print t b)))
  /\ (forall (v : string) (b : Bar),
         (forall d, In d (context b) -> verb d <> v) ->
         debug (customVerbToken v) b
         = (Ok ("<customVerbToken verb=" ++ quote ++ v ++ quote ++ " value="
                ++ quote ++ v ++ quote ++ ">"), [unresolved_diagnostic])).
Proof.
  split.
  - intros t b. destruct t; cbn [debug print snd]; try (eexists; reflexivity).
    unfold print_customVerbToken.
    destruct (lookup_context verb0 (context b)); eexists; reflexivity.
  - intros v b Hctx. cbn [debug]. unfold print_customVerbToken.
    rewrite lookup_context_none by assumption. reflexivity.
Qed.

Lemma debug_never_panics_witness :
  (exists text, debug barToken (sample 10 1.5 []) = (Ok text, []))
  /\ debug (customVerbToken "foo") (sample 10 0 [ {| verb := "bar"; value := "1" |} ])
     = (Ok ("<customVerbToken verb=" ++ quote ++ "foo" ++ quote ++ " value="
            ++ quote ++ "foo" ++ quote ++ ">"), [unresolved_diagnostic]).
Proof.
  split.
  - exact (proj1 debug_never_panics barToken (sample 10 1.5 [])).
  - apply (proj2 debug_never_panics "foo"
             (sample 10 0 [ {| verb := "bar"; value := "1" |} ])).
    simpl. intros d [<-|[]]. discriminate.
Defined.

(** ** The list of custom verbs as a set *)

Lemma tokenFromString_same (s : string) (cv cv' : list string) :
  (forall x, In x cv <-> In x cv') ->
  tokenFromString s cv = tokenFromString s cv'.
Proof.
  intros Hsame. unfold tokenFromString.
  destruct (String.eqb s "bar"); [reflexivity|].
  destruct (String.eqb s "percent"); [reflexivity|].
  destruct (String.eqb s "rate"); [reflexivity|].
  destruct (String.eqb s "eta"); [reflexivity|].
  destruct (in_dec string_dec s cv) as [Hin|Hout].
  - rewrite (customVerbFromString_In s cv Hin).
    rewrite (customVerbFromString_In s cv'); [reflexivity|now apply Hsame].
  - rewrite (customVerbFromString_None s cv Hout).
    rewrite (customVerbFromString_None s cv'); [reflexivity|].
    intros Hin. apply Hout. now apply Hsame.
Qed.

Lemma readAction_loop_same (cv cv' : list string) (fuel : nat) :
  (forall x, In x cv <-> In x cv') ->
  forall (verb0 : string) (s : stream),
    readAction_loop fuel cv verb0 s = readAction_loop fuel cv' verb0 s.
Proof.
  intros Hsame. induction fuel as [|fuel IH]; intros verb0 s; [reflexivity|].
  cbn [readAction_loop].
  destruct (ReadRune s) as [[r s']|err]; [|reflexivity].
  rewrite (tokenFromString_same _ cv cv' Hsame).
  destruct (tokenFromString (verb0 ++ utf8.EncodeRune r) cv'); [reflexivity|].
  destruct (readSeparator s'); [reflexivity|apply IH].
Qed.

Lemma tokenize_loop_same (cv cv' : list string) (fuel : nat) :
  (forall x, In x cv <-> In x cv') ->
  forall (t : tokens) (s : stream),
    tokenize_loop fuel cv t s = tokenize_loop fuel cv' t s.
Proof.
  intros Hsame. induction fuel as [|fuel IH]; intros t s; [reflexivity|].
  cbn [tokenize_loop].
  assert (Hnext : nextToken fuel cv s = nextToken fuel cv' s).
  { unfold nextToken, readAction.
    destruct (ReadRune s) as [[r s']|err]; [|reflexivity].
    destruct (r =? 32); [reflexivity|].
    destruct (r =? 58); [|reflexivity].
    now apply readAction_loop_same. }
  rewrite Hnext.
  destruct (nextToken fuel cv' s) as [[[tkn|[|msg]] s']|]; try reflexivity.
  apply IH.
Qed.

(** X15.  Only membership in the list of custom verbs counts: two lists
    with the same names, in any order and with any repetitions, look up
    every string alike and give the same tokens for every format. *)
Theorem custom_verbs_are_a_set (cv cv' : list string) :
  (forall x, In x cv <-> In x cv') ->
  (forall s, tokenFromString s cv = tokenFromString s cv')
  /\ (forall f, tokenize f cv = tokenize f cv').
Proof.
  intros Hsame. split.
  - intros s. now apply tokenFromString_same.
  - intros f. unfold tokenize. now apply tokenize_loop_same.
Qed.

Lemma custom_verbs_are_a_set_witness :
  (forall s, tokenFromString s ["foo"; "baz"] = tokenFromString s ["baz"; "foo"; "baz"])
  /\ (forall f, tokenize f ["foo"; "baz"] = tokenize f ["baz"; "foo"; "baz"]).
Proof.
  apply (custom_verbs_are_a_set ["foo"; "baz"] ["baz"; "foo"; "baz"]).
  intros x. simpl. tauto.
Defined.

(** ** Separators inside candidates *)

Lemma first_xx (p : Z) :
  0x80 <= p <= 0xC1 \/ 0xF5 <= p -> utf8.first p = utf8.xx.
Proof. intros. first_by_cases. Qed.

Lemma decoded_2 (p0 b1 : Z) :
  0 <= p0 < 256 -> 0 <= b1 < 256 ->
  int32 (Z.lor (Z.shiftl (Z.land p0 utf8.mask2) 6) (Z.land b1 utf8.maskx))
  = (p0 mod 32) * 64 + b1 mod 64.
Proof.
  intros H0 H1. to_arith. pow2.
  change 64 with (2 ^ 6) at 1. rewrite lor_low_high by (pow2; arith).
  pow2. rewrite int32_small by arith. reflexivity.
Qed.

Lemma decoded_3 (p0 b1 b2 : Z) :
  0 <= p0 < 256 -> 0 <= b1 < 256 -> 0 <= b2 < 256 ->
  int32 (Z.lor (Z.lor (Z.shiftl (Z.land p0 utf8.mask3) 12)
                      (Z.shiftl (Z.land b1 utf8.maskx) 6))
               (Z.land b2 utf8.maskx))
  = (p0 mod 16) * 4096 + (b1 mod 64) * 64 + b2 mod 64.
Proof.
  intros H0 H1 H2. to_arith.
  rewrite (lor_low_high (p0 mod 2 ^ 4) (b1 mod 2 ^ 6 * 2 ^ 6) 12) by (pow2; arith).
  replace (p0 mod 2 ^ 4 * 2 ^ 12 + b1 mod 2 ^ 6 * 2 ^ 6)
    with ((p0 mod 2 ^ 4 * 2 ^ 6 + b1 mod 2 ^ 6) * 2 ^ 6) by (pow2; lia).
  rewrite lor_low_high by (pow2; arith).
  pow2. rewrite int32_small by arith. lia.
Qed.

Lemma decoded_4 (p0 b1 b2 b3 : Z) :
  0 <= p0 < 256 -> 0 <= b1 < 256 -> 0 <= b2 < 256 -> 0 <= b3 < 256 ->
  int32 (Z.lor (Z.lor (Z.lor (Z.shiftl (Z.land p0 utf8.mask4) 18)
                             (Z.shiftl (Z.land b1 utf8.maskx) 12))
                      (Z.shiftl (Z.land b2 utf8.maskx) 6))
               (Z.land b3 utf8.maskx))
  = (p0 mod 8) * 262144 + (b1 mod 64) * 4096 + (b2 mod 64) * 64 + b3 mod 64.
Proof.
  intros H0 H1 H2 H3. to_arith.
  rewrite (lor_low_high (p0 mod 2 ^ 3) (b1 mod 2 ^ 6 * 2 ^ 12) 18) by (pow2; arith).
  replace (p0 mod 2 ^ 3 * 2 ^ 18 + b1 mod 2 ^ 6 * 2 ^ 12)
    with ((p0 mod 2 ^ 3 * 2 ^ 6 + b1 mod 2 ^ 6) * 2 ^ 12) by (pow2; lia).
  rewrite (lor_low_high (p0 mod 2 ^ 3 * 2 ^ 6 + b1 mod 2 ^ 6) (b2 mod 2 ^ 6 * 2 ^ 6) 12)
    by (pow2; arith).
  replace ((p0 mod 2 ^ 3 * 2 ^ 6 + b1 mod 2 ^ 6) * 2 ^ 12 + b2 mod 2 ^ 6 * 2 ^ 6)
    with (((p0 mod 2 ^ 3 * 2 ^ 6 + b1 mod 2 ^ 6) * 2 ^ 6 + b2 mod 2 ^ 6) * 2 ^ 6)
    by (pow2; lia).
  rewrite lor_low_high by (pow2; arith).
  pow2. rewrite int32_small by arith. lia.
Qed.

Ltac decode_leaves :=
  repeat first
    [ match goal with
      | |- context [match byte_at ?p ?i with _ => _ end] => destruct (byte_at p i)
      end
    | match goal with
      | |- context [if ?c then _ else _] => destruct c eqn:?
      end ].

Ltac decode_bounds :=
  repeat match goal with
         | H : (_ || _) = false |- _ => apply orb_false_elim in H as [? ?]
         | H : (_ <? _) = false |- _ => apply Z.ltb_ge in H
         end.

(** A rune decoded from a byte that is not ASCII is not ASCII. *)
Lemma DecodeRune_high (a0 : byte) (rest : string) (r : rune) (n : nat) :
  128 <= byte_val a0 ->
  utf8.DecodeRune (String a0 rest) = (r, n) -> 128 <= r.
Proof.
  intros Ha. pose proof (byte_val_range a0) as Hp.
  unfold utf8.DecodeRune. cbv zeta.
  assert (Hcases : 0x80 <= byte_val a0 <= 0xC1 \/ 0xF5 <= byte_val a0
                   \/ 0xC2 <= byte_val a0 <= 0xDF
                   \/ byte_val a0 = 0xE0
                   \/ (0xE1 <= byte_val a0 <= 0xEF /\ byte_val a0 <> 0xED)
                   \/ byte_val a0 = 0xED
                   \/ byte_val a0 = 0xF0
                   \/ 0xF1 <= byte_val a0 <= 0xF3
                   \/ byte_val a0 = 0xF4) by lia.
  destruct Hcases as [H|[H|[H|[H|[H|[H|[H|[H|H]]]]]]]].
  - rewrite first_xx by lia.
    change (utf8.as_ <=? utf8.xx) with true. change (utf8.xx =? utf8.as_) with false.
    cbv iota. intros E. apply (f_equal fst) in E. cbn [fst] in E. subst r. unfold utf8.RuneError. lia.
  - rewrite first_xx by lia.
    change (utf8.as_ <=? utf8.xx) with true. change (utf8.xx =? utf8.as_) with false.
    cbv iota. intros E. apply (f_equal fst) in E. cbn [fst] in E. subst r. unfold utf8.RuneError. lia.
  - rewrite first_s1 by lia. decode_consts utf8.s1.
    decode_leaves; try discriminate; intros E; apply (f_equal fst) in E; cbn [fst] in E; subst r;
      try (unfold utf8.RuneError; lia);
      rewrite decoded_2 by (apply byte_val_range); arith.
  - rewrite H, first_s2. decode_consts utf8.s2.
    decode_leaves; try discriminate; intros E; apply (f_equal fst) in E; cbn [fst] in E; subst r;
      try (unfold utf8.RuneError; lia);
      rewrite decoded_3 by (apply byte_val_range || lia);
      decode_bounds; unfold utf8.hicb in *; arith.
  - rewrite first_s3 by lia. decode_consts utf8.s3.
    decode_leaves; try discriminate; intros E; apply (f_equal fst) in E; cbn [fst] in E; subst r;
      try (unfold utf8.RuneError; lia);
      rewrite decoded_3 by (apply byte_val_range); arith.
  - rewrite H, first_s4. decode_consts utf8.s4.
    decode_leaves; try discriminate; intros E; apply (f_equal fst) in E; cbn [fst] in E; subst r;
      try (unfold utf8.RuneError; lia);
      rewrite decoded_3 by (apply byte_val_range || lia); arith.
  - rewrite H, first_s5. decode_consts utf8.s5.
    decode_leaves; try discriminate; intros E; apply (f_equal fst) in E; cbn [fst] in E; subst r;
      try (unfold utf8.RuneError; lia);
      rewrite decoded_4 by (apply byte_val_range || lia);
      decode_bounds; unfold utf8.hicb in *; arith.
  - rewrite first_s6 by lia. decode_consts utf8.s6.
    decode_leaves; try discriminate; intros E; apply (f_equal fst) in E; cbn [fst] in E; subst r;
      try (unfold utf8.RuneError; lia);
      rewrite decoded_4 by (apply byte_val_range); arith.
  - rewrite H, first_s7. decode_consts utf8.s7.
    decode_leaves; try discriminate; intros E; apply (f_equal fst) in E; cbn [fst] in E; subst r;
      try (unfold utf8.RuneError; lia);
      rewrite decoded_4 by (apply byte_val_range || lia); arith.
Qed.

Lemma lor_byte_high (t x : Z) :
  Z.testbit t 7 = true -> 128 <= byte_val (byte_of (Z.lor t x)).
Proof.
  intros Ht. rewrite byte_val_of.
  assert (Hb : Z.testbit (Z.lor t x mod 2 ^ 8) 7 = true).
  { rewrite Z.mod_pow2_bits_low by lia. rewrite Z.lor_spec, Ht. reflexivity. }
  apply Z.testbit_true in Hb; [|lia].
  change (2 ^ 8) with 256 in Hb. change (2 ^ 7) with 128 in Hb. arith.
Qed.

Lemma high_byte_plain (t x : Z) (w : string) :
  Z.testbit t 7 = true ->
  no_separator (String (byte_of (Z.lor t x)) w) = no_separator w.
Proof.
  intros Ht. cbn [no_separator].
  pose proof (lor_byte_high t x Ht).
  rewrite not_separator_byte by lia. reflexivity.
Qed.

Lemma no_separator_append (x y : string) :
  no_separator (x ++ y) = no_separator x && no_separator y.
Proof.
  induction x as [|a x IH]; [reflexivity|].
  cbn [append no_separator]. rewrite IH. now rewrite andb_assoc.
Qed.

(** Past its first byte, the encoding of a rune holds no separator. *)
Lemma EncodeRune_inner (r : rune) : inner_plain (utf8.EncodeRune r) = true.
Proof.
  unfold utf8.EncodeRune, utf8.encode3.
  repeat match goal with
         | |- context [if ?c then _ else _] => destruct c
         end; cbn [inner_plain]; rewrite ?high_byte_plain by reflexivity; reflexivity.
Qed.

(** The encoding of a rune other than the two separators holds none. *)
Lemma EncodeRune_plain (r : rune) :
  - 2 ^ 31 <= r < 2 ^ 31 -> r <> 32 -> r <> 58 ->
  no_separator (utf8.EncodeRune r) = true.
Proof.
  intros Hr H32 H58. unfold utf8.EncodeRune, utf8.encode3.
  destruct (uint32 r <=? utf8.rune1Max) eqn:H1.
  - apply Z.leb_le in H1. unfold uint32, utf8.rune1Max in H1.
    assert (0 <= r) by (destruct (Z_lt_le_dec r 0) as [Hn|]; [|assumption];
      rewrite <- (Z.mod_add r 1 (2 ^ 32)) in H1 by lia;
      rewrite Z.mod_small in H1 by lia; lia).
    rewrite Z.mod_small in H1 by lia.
    cbn [no_separator]. rewrite not_separator_byte; [reflexivity| |];
      rewrite byte_val_of, Z.mod_small by lia; assumption.
  - repeat match goal with
           | |- context [if ?c then _ else _] => destruct c
           end; rewrite ?high_byte_plain by reflexivity; reflexivity.
Qed.

(** A rune read where no separator stands is no separator. *)
Lemma ReadRune_text (s s' : stream) (r : rune) :
  ReadRune s = inl (r, s') -> readSeparator s = false -> r <> 32 /\ r <> 58.
Proof.
  destruct s as [|a rest]; [discriminate|]. unfold ReadRune, utf8.RuneSelf.
  cbn [readSeparator Peek1]. intros Hread Hsep.
  apply orb_false_elim in Hsep as [Hs Hc].
  apply Ascii.eqb_neq in Hs, Hc.
  destruct (Z.ltb_spec (byte_val a) 128).
  - injection Hread as <- _. split; intros E.
    + apply Hs. rewrite <- (byte_of_val a), E. reflexivity.
    + apply Hc. rewrite <- (byte_of_val a), E. reflexivity.
  - destruct (utf8.DecodeRune (String a rest)) as [r0 n] eqn:Hd.
    apply DecodeRune_high in Hd; [|assumption].
    assert (r0 = r) by congruence. lia.
Qed.

Lemma readLiteral_loop_plain (fuel : nat) :
  forall (value : string) (s s' : stream) (c : string),
    no_separator value = true ->
    readLiteral_loop fuel value s = Some (inl (literalToken c), s') ->
    no_separator c = true.
Proof.
  induction fuel as [|fuel IH]; intros value s s' c Hvalue; [discriminate|].
  cbn [readLiteral_loop].
  destruct (readSeparator s) eqn:Hsep.
  - intros H. injection H as <- _. assumption.
  - destruct (ReadRune s) as [[r s1]|err] eqn:Hread; [|discriminate].
    apply IH. rewrite no_separator_append, Hvalue.
    destruct (ReadRune_text _ _ _ Hread Hsep) as [H32 H58].
    apply ReadRune_spec in Hread as [_ Hr].
    now rewrite EncodeRune_plain.
Qed.

Lemma inner_plain_append (x y : string) :
  x <> "" -> inner_plain (x ++ y) = inner_plain x && no_separator y.
Proof.
  destruct x as [|a x]; [contradiction|]. intros _.
  cbn [append inner_plain]. apply no_separator_append.
Qed.

Lemma readAction_loop_shaped (cv : list string) (fuel : nat) :
  forall (verb0 : string) (s s' : stream) (t : token),
    verb0 = "" \/ (verb0 <> "" /\ inner_plain verb0 = true /\ readSeparator s = false) ->
    readAction_loop fuel cv verb0 s = Some (inl t, s') ->
    shaped t.
Proof.
  induction fuel as [|fuel IH]; intros verb0 s s' t Hverb; [discriminate|].
  cbn [readAction_loop].
  destruct (ReadRune s) as [[r s1]|err] eqn:Hread; [|discriminate].
  assert (Hinner : inner_plain (verb0 ++ utf8.EncodeRune r) = true).
  { destruct Hverb as [->|(Hne & Hin & Hsep)].
    - apply EncodeRune_inner.
    - rewrite inner_plain_append, Hin by assumption.
      destruct (ReadRune_text _ _ _ Hread Hsep) as [H32 H58].
      apply ReadRune_spec in Hread as [_ Hr].
      now rewrite EncodeRune_plain. }
  destruct (tokenFromString (verb0 ++ utf8.EncodeRune r) cv) as [t0|] eqn:Htok.
  - intros H. injection H as <- _. destruct t0; try exact I.
    + apply tokenFromString_custom in Htok as [-> _]. exact Hinner.
    + exfalso. exact (tokenFromString_not_literal _ _ _ Htok).
  - destruct (readSeparator s1) eqn:Hsep.
    + intros H. injection H as <- _. right. eexists. split; [reflexivity|assumption].
    + apply IH. right. split; [|split; assumption].
      apply append_nonempty, EncodeRune_nonempty.
Qed.

Lemma readLiteral_loop_literal (fuel : nat) :
  forall (value : string) (s s' : stream) (t : token),
    readLiteral_loop fuel value s = Some (inl t, s') ->
    exists c, t = literalToken c.
Proof.
  induction fuel as [|fuel IH]; intros value s s' t; [discriminate|].
  cbn [readLiteral_loop]. destruct (readSeparator s).
  - intros H. injection H as <- _. eauto.
  - destruct (ReadRune s) as [[r s1]|err]; [apply IH|discriminate].
Qed.

Lemma nextToken_shaped (cv : list string) (fuel : nat) (s s' : stream) (t : token) :
  nextToken fuel cv s = Some (inl t, s') -> shaped t.
Proof.
  unfold nextToken, readAction, readLiteral.
  destruct (ReadRune s) as [[r s1]|err] eqn:Hread; [|discriminate].
  destruct (Z.eqb_spec r 32); [intros H; injection H as <- _; exact I|].
  destruct (Z.eqb_spec r 58).
  - apply readAction_loop_shaped. now left.
  - intros H. destruct (readLiteral_loop_literal _ _ _ _ _ H) as [c ->].
    left. apply (readLiteral_loop_plain fuel _ _ _ _) with (2 := H).
    apply ReadRune_spec in Hread as [_ Hr]. now apply EncodeRune_plain.
Qed.

(** X14.  Past its first rune a candidate of action mode never holds a
    space or a trigger, and a literal of literal mode holds none at all.  So
    in every token sequence a custom verb name has no separator past its
    first byte, and a custom verb registered under a name with a space or a
    trigger past the first byte (["my verb"]) is never found, under any
    format. *)
Theorem candidates_hold_no_separator :
  (forall (f : string) (cv : list string),
      exists ts, tokenize f cv = Some (Returned ts) /\ Forall shaped ts)
  /\ (forall (f : string) (cv : list string) (v : string),
         inner_plain v = false ->
         exists ts,
           tokenize f cv = Some (Returned ts) /\ ~ In (customVerbToken v) ts).
Proof.
  assert (Hall : forall f cv,
             exists ts, tokenize f cv = Some (Returned ts) /\ Forall shaped ts).
  { intros f cv. apply (tokenize_ind cv (fun _ ts => Forall shaped ts)).
    - intros. constructor.
    - intros s s' fuel t ts _ Hnext _ HR. constructor; [|assumption].
      exact (nextToken_shaped cv fuel s s' t Hnext). }
  split; [exact Hall|].
  intros f cv v Hv. destruct (Hall f cv) as (ts & Hts & Hshaped).
  exists ts. split; [assumption|]. intros Hin.
  rewrite Forall_forall in Hshaped. specialize (Hshaped _ Hin).
  simpl in Hshaped. congruence.
Qed.

Lemma candidates_hold_no_separator_witness :
  exists ts,
    tokenize ":my verb" ["my verb"] = Some (Returned ts)
    /\ ~ In (customVerbToken "my verb") ts.
Proof.
  exact (proj2 candidates_hold_no_separator ":my verb" ["my verb"] "my verb" eq_refl).
Defined.
